(** * Metacom client: frame codec, streams, call registry and connection
    lifecycle.

    A shallow embedding of [dist/metacom.js] (classes [Metacom],
    [WebsocketTransport], [HttpTransport]) together with the parts of
    [streams.js] it relies on ([Chunk], [MetaReadable], [MetaWritable]),
    followed by the properties proved about them. *)

From Stdlib Require Import ZArith Lia.
From Stdlib Require Import Strings.Byte Strings.Ascii.
From stdpp Require Import gmap strings list pretty.

Local Open Scope Z_scope.
Local Set Warnings "-register-all".

(** ** Results of fallible code *)

(** A JavaScript computation either completes with a value or throws. *)
Inductive result (E A : Type) : Type :=
  | Ok (a : A)
  | Throw (e : E).
Arguments Ok {E A} a.
Arguments Throw {E A} e.

(** ** Bytes *)

Abbreviation bytes := (list Byte.byte).

Definition byte_of_Z (z : Z) : Byte.byte :=
  default Byte.x00 (Byte.of_N (Z.to_N (z mod 256))).

Definition Z_of_byte (b : Byte.byte) : Z := Z.of_N (Byte.to_N b).

(** ** Frame codec ([Chunk] of streams.js) *)

Module Chunk.

Record frame := Frame { streamId : Z; payload : bytes }.

Inductive codec_error := FrameError.

Section Codec.
(** Modelled from the spec: the header width of the frame (the constant
    of streams.js that fixes how many bytes hold the stream id). *)
Variable ID_LENGTH : nat.

(** The [w] low-order base-256 digits of [n], most significant first. *)
Fixpoint id_bytes (w : nat) (n : Z) : bytes :=
  match w with
  | O => []
  | S w' => id_bytes w' (n / 256) ++ [byte_of_Z n]
  end.

Definition id_value (bs : bytes) : Z :=
  fold_left (fun acc b => acc * 256 + Z_of_byte b) bs 0.

(** Modelled from the spec: [Chunk.encode] of streams.js, which is not
    among the sources. "Writes streamId into a fixed-width unsigned
    field ..., followed by the payload bytes unmodified." The field is
    written in network byte order. *)
Definition encode (id : Z) (data : bytes) : bytes :=
  id_bytes ID_LENGTH id ++ data.

(** Modelled from the spec: [Chunk.decode] of streams.js. "Inverse;
    fails with a FrameError if the frame is shorter than the fixed
    header width." *)
Definition decode (chunk : bytes) : result codec_error frame :=
  if (length chunk <? ID_LENGTH)%nat then Throw FrameError
  else Ok (Frame (id_value (take ID_LENGTH chunk)) (drop ID_LENGTH chunk)).

(** The ids the header field can hold. *)
Definition valid_id (id : Z) : Prop := 0 <= id < 256 ^ Z.of_nat ID_LENGTH.
End Codec.

End Chunk.

(** ** JavaScript values *)

(** A JavaScript number as far as the client looks at it. [Int z] is an
    integral value; [NonInt n d] stands for the non-integral value [n/d]
    (in lowest terms); [Infinity] is what an overflowing literal parses
    to. *)
Inductive number :=
  | Int (z : Z)
  | NonInt (n : Z) (d : positive)
  | Infinity (negative : bool).

(** What [JSON.parse] returns. The entries of [JObj] are the own
    properties in the order in which [Object.keys] lists them, one entry
    per key. [undefined] is [None] in [option json]. *)
Inductive json :=
  | JNull
  | JBool (b : bool)
  | JNum (n : number)
  | JStr (s : string)
  | JArr (xs : list json)
  | JObj (kvs : list (string * json)).

(** The keys of the two [Map]s. Primitive keys are compared by value,
    objects and arrays by identity ([KRef] holds the address). *)
Inductive key :=
  | KNull
  | KBool (b : bool)
  | KNum (n : number)
  | KStr (s : string)
  | KRef (addr : nat).

Global Instance number_eq_dec : EqDecision number.
Proof. solve_decision. Defined.

Global Instance number_countable : Countable number.
Proof.
  refine (inj_countable'
    (fun n => match n with
              | Int z => inl z
              | NonInt a d => inr (inl (a, d))
              | Infinity b => inr (inr b)
              end)
    (fun s => match s with
              | inl z => Int z
              | inr (inl (a, d)) => NonInt a d
              | inr (inr b) => Infinity b
              end) _).
  intros []; reflexivity.
Defined.

Global Instance key_eq_dec : EqDecision key.
Proof. solve_decision. Defined.

Global Instance key_countable : Countable key.
Proof.
  refine (inj_countable'
    (fun k => match k with
              | KNull => inl ()
              | KBool b => inr (inl b)
              | KNum n => inr (inr (inl n))
              | KStr s => inr (inr (inr (inl s)))
              | KRef a => inr (inr (inr (inr a)))
              end)
    (fun s => match s with
              | inl _ => KNull
              | inr (inl b) => KBool b
              | inr (inr (inl n)) => KNum n
              | inr (inr (inr (inl s))) => KStr s
              | inr (inr (inr (inr a))) => KRef a
              end) _).
  intros []; reflexivity.
Defined.

(** The key under which a call or stream counter value is stored. *)
Definition num (z : Z) : key := KNum (Int z).

(** What the client throws, logs or rejects with. *)
Inductive error :=
  | TypeError
  | FrameError
  | ProtocolError
  | StreamClosed
  | RequestTimeout
  | StreamNotInitialized (id : option json)
  | StreamAlreadyInitialized (name : string)
  | StreamPacketStructure
  | MetacomError (message code : option json).

(** [if (v)]: the falsy values are undefined, null, false, 0 and the
    empty string. *)
Definition truthy (v : option json) : bool :=
  match v with
  | None | Some JNull => false
  | Some (JBool b) => b
  | Some (JNum (Int z)) => negb (z =? 0)
  | Some (JNum _) => true
  | Some (JStr s) => negb (String.eqb s EmptyString)
  | Some (JArr _) | Some (JObj _) => true
  end.

Definition MAX_SAFE_INTEGER : Z := 2 ^ 53 - 1.

Definition Number_isSafeInteger (v : option json) : bool :=
  match v with
  | Some (JNum (Int z)) => Z.abs z <=? MAX_SAFE_INTEGER
  | _ => false
  end.

Definition indices (n : nat) : list string := (pretty : nat -> string) <$> seq 0 n.

(** [Object.keys(v)]; it throws on null. *)
Definition Object_keys (v : json) : result error (list string) :=
  match v with
  | JNull => Throw TypeError
  | JBool _ | JNum _ => Ok []
  | JStr s => Ok (indices (String.length s))
  | JArr xs => Ok (indices (length xs))
  | JObj kvs => Ok (kvs.*1)
  end.

Definition index_of_name (n : nat) (k : string) : option nat :=
  List.find (fun i => String.eqb (pretty i) k) (seq 0 n).

Definition char_at (s : string) (i : nat) : option json :=
  match String.get i s with
  | Some c => Some (JStr (String c EmptyString))
  | None => None
  end.

(** [v[k]] for a parsed value [v]: own properties and [length]. *)
Definition js_get (v : json) (k : string) : option json :=
  match v with
  | JObj kvs => snd <$> List.find (fun kv => String.eqb (fst kv) k) kvs
  | JArr xs =>
      if String.eqb k "length" then Some (JNum (Int (Z.of_nat (length xs))))
      else match index_of_name (length xs) k with
           | Some i => xs !! i
           | None => None
           end
  | JStr s =>
      if String.eqb k "length" then Some (JNum (Int (Z.of_nat (String.length s))))
      else match index_of_name (String.length s) k with
           | Some i => char_at s i
           | None => None
           end
  | _ => None
  end.

(** [v[k]] where [k] may be undefined, which reads the property named
    "undefined". *)
Definition js_get_opt (v : json) (k : option string) : option json :=
  js_get v (default "undefined" k).

(** What travels over the transport: a text unit or a binary unit. *)
Inductive wire_unit :=
  | Text (s : string)
  | Binary (b : bytes).

(** ** A fragment of JSON.stringify and JSON.parse

    The client is modelled over any [JSON.parse] and [JSON.stringify].
    The two functions below cover compact JSON texts over integers and
    strings without escapes; the examples instantiate the model with
    them. *)

Definition dquote : string := String (Ascii.ascii_of_nat 34) EmptyString.

Definition quoted (s : string) : string := dquote +:+ s +:+ dquote.

Definition join (sep : string) (parts : list string) : string :=
  match parts with
  | [] => EmptyString
  | p :: ps => fold_left (fun acc q => acc +:+ sep +:+ q) ps p
  end.

Fixpoint stringify (v : json) : string :=
  match v with
  | JNull => "null"
  | JBool true => "true"
  | JBool false => "false"
  | JNum (Int z) => pretty z
  | JNum _ => "null"
  | JStr s => quoted s
  | JArr xs => "[" +:+ join "," (List.map stringify xs) +:+ "]"
  | JObj kvs =>
      "{" +:+ join "," (List.map (fun kv : string * json =>
                          let '(k, x) := kv in quoted k +:+ ":" +:+ stringify x) kvs)
          +:+ "}"
  end.

Definition digit_value (c : Ascii.ascii) : option Z :=
  let n := Ascii.nat_of_ascii c in
  if ((48 <=? n) && (n <=? 57))%nat then Some (Z.of_nat (n - 48)) else None.

(** Reads the digits at the front of [s]. *)
Fixpoint parse_digits (s : string) (acc : Z) : Z * string :=
  match s with
  | String c rest =>
      match digit_value c with
      | Some d => parse_digits rest (acc * 10 + d)
      | None => (acc, s)
      end
  | EmptyString => (acc, s)
  end.

(** Reads a string body up to its closing quote. *)
Fixpoint parse_chars (s : string) : option (string * string) :=
  match s with
  | String c rest =>
      if Ascii.eqb c (Ascii.ascii_of_nat 34) then Some (EmptyString, rest)
      else if Ascii.eqb c (Ascii.ascii_of_nat 92) then None
      else match parse_chars rest with
           | Some (body, rest') => Some (String c body, rest')
           | None => None
           end
  | EmptyString => None
  end.

Definition expect (word : string) (v : json) (s : string) : option (json * string) :=
  if String.prefix word s
  then Some (v, String.substring (String.length word) (String.length s - String.length word) s)
  else None.

Definition parse_number (negative : bool) (s : string) : option (json * string) :=
  match s with
  | String c _ =>
      match digit_value c with
      | Some _ =>
          let '(n, rest) := parse_digits s 0 in
          Some (JNum (Int (if negative then - n else n)), rest)
      | None => None
      end
  | EmptyString => None
  end.

Fixpoint parse_value (fuel : nat) (s : string) : option (json * string) :=
  match fuel with
  | O => None
  | S fuel' =>
      match s with
      | String c rest =>
          if Ascii.eqb c "n"%char then expect "null" JNull s
          else if Ascii.eqb c "t"%char then expect "true" (JBool true) s
          else if Ascii.eqb c "f"%char then expect "false" (JBool false) s
          else if Ascii.eqb c (Ascii.ascii_of_nat 34) then
            match parse_chars rest with
            | Some (body, rest') => Some (JStr body, rest')
            | None => None
            end
          else if Ascii.eqb c "["%char then
            match rest with
            | String "]"%char rest' => Some (JArr [], rest')
            | _ => match parse_elements fuel' rest with
                   | Some (xs, rest') => Some (JArr xs, rest')
                   | None => None
                   end
            end
          else if Ascii.eqb c "{"%char then
            match rest with
            | String "}"%char rest' => Some (JObj [], rest')
            | _ => match parse_members fuel' rest with
                   | Some (kvs, rest') => Some (JObj kvs, rest')
                   | None => None
                   end
            end
          else if Ascii.eqb c "-"%char then parse_number true rest
          else parse_number false s
      | EmptyString => None
      end
  end
with parse_elements (fuel : nat) (s : string) : option (list json * string) :=
  match fuel with
  | O => None
  | S fuel' =>
      match parse_value fuel' s with
      | Some (x, String ","%char rest) =>
          match parse_elements fuel' rest with
          | Some (xs, rest') => Some (x :: xs, rest')
          | None => None
          end
      | Some (x, String "]"%char rest) => Some ([x], rest)
      | _ => None
      end
  end
with parse_members (fuel : nat) (s : string) : option (list (string * json) * string) :=
  match fuel with
  | O => None
  | S fuel' =>
      match s with
      | String q rest =>
          if Ascii.eqb q (Ascii.ascii_of_nat 34) then
            match parse_chars rest with
            | Some (k, String ":"%char rest1) =>
                match parse_value fuel' rest1 with
                | Some (x, String ","%char rest2) =>
                    match parse_members fuel' rest2 with
                    | Some (kvs, rest3) => Some ((k, x) :: kvs, rest3)
                    | None => None
                    end
                | Some (x, String "}"%char rest2) => Some ([(k, x)], rest2)
                | _ => None
                end
            | _ => None
            end
          else None
      | EmptyString => None
      end
  end.

Definition parse (s : string) : option json :=
  match parse_value (S (String.length s)) s with
  | Some (v, EmptyString) => Some v
  | _ => None
  end.

(** ** A state and exception monad *)

(** A computation over a mutable state [S] that may throw. A throw keeps
    the state changes made so far. *)
Definition M (S A : Type) : Type := S -> result error A * S.

Definition ret {S A} (a : A) : M S A := fun s => (Ok a, s).

Definition bind {S A B} (m : M S A) (k : A -> M S B) : M S B :=
  fun s => match m s with
           | (Ok a, s') => k a s'
           | (Throw e, s') => (Throw e, s')
           end.

Definition throw {S A} (e : error) : M S A := fun s => (Throw e, s).

(** [try { m } catch (e) { ... }]: the outcome of [m] as a value. *)
Definition try {S A} (m : M S A) : M S (result error A) :=
  fun s => let '(r, s') := m s in (Ok r, s').

Definition lift {S A} (r : result error A) : M S A := fun s => (r, s).

Notation "'let!' x ':=' m 'in' k" := (bind m (fun x => k))
  (at level 10, x name, m at level 100, k at level 200).
Notation "m ';;' k" := (bind m (fun _ => k))
  (at level 100, k at level 200, right associativity).

(** The capability the streams are given: [transport.send(unit)]. *)
Class Transport (T : Type) := send : wire_unit -> M T unit.

(** ** Streams (streams.js) *)

Inductive stream_state := INIT | ACTIVE | ENDED | TERMINATED.

Record MetaReadable := {
  r_id : key;
  r_name : string;
  r_size : Z;
  r_state : stream_state;
  r_buffer : list bytes
}.

Module Readable.

(** Modelled from the spec: the [MetaReadable] class of streams.js, which
    is not among the sources. "INIT -> ACTIVE (on first push or
    explicitly on construction)": a stream built from an inbound init
    packet starts ACTIVE. The suspended consumers of the stream are not
    part of the model. *)
Definition new (id : key) (name : string) (size : Z) : MetaReadable :=
  {| r_id := id; r_name := name; r_size := size; r_state := ACTIVE; r_buffer := [] |}.

Definition finished (s : MetaReadable) : bool :=
  match r_state s with
  | ENDED | TERMINATED => true
  | INIT | ACTIVE => false
  end.

(** Modelled from the spec: "push(chunk): appends chunk to the pending
    buffer ...; calling push on an ENDED/TERMINATED stream signals a
    ProtocolError to the caller". *)
Definition push (s : MetaReadable) (chunk : bytes) : result error MetaReadable :=
  if finished s then Throw ProtocolError
  else Ok {| r_id := r_id s; r_name := r_name s; r_size := r_size s;
             r_state := ACTIVE; r_buffer := r_buffer s ++ [chunk] |}.

Definition set_state (st : stream_state) (s : MetaReadable) : MetaReadable :=
  {| r_id := r_id s; r_name := r_name s; r_size := r_size s;
     r_state := st; r_buffer := r_buffer s |}.

(** Modelled from the spec: "close(): ACTIVE -> ENDED". *)
Definition close (s : MetaReadable) : MetaReadable :=
  match r_state s with
  | ACTIVE => set_state ENDED s
  | _ => s
  end.

(** Modelled from the spec: "terminate(): ACTIVE/INIT -> TERMINATED". *)
Definition terminate (s : MetaReadable) : MetaReadable :=
  match r_state s with
  | ACTIVE | INIT => set_state TERMINATED s
  | _ => s
  end.

End Readable.

Record MetaWritable := {
  w_id : Z;
  w_name : string;
  w_size : Z;
  w_finalized : bool
}.

Module Writable.
Section Writable.
Variable ID_LENGTH : nat.
Variable JSON_stringify : json -> string.
Context {T : Type} `{!Transport T}.

Definition finalize (w : MetaWritable) : MetaWritable :=
  {| w_id := w_id w; w_name := w_name w; w_size := w_size w; w_finalized := true |}.

(** Modelled from the spec: the constructor of [MetaWritable]
    (streams.js, not among the sources). "Immediately sends
    {stream: id, name, size} via the connection's send capability." *)
Definition new (id : Z) (name : string) (size : Z) : M T MetaWritable :=
  send (Text (JSON_stringify
    (JObj [("stream", JNum (Int id)); ("name", JStr name); ("size", JNum (Int size))])));;
  ret {| w_id := id; w_name := name; w_size := size; w_finalized := false |}.

(** Modelled from the spec: "write(chunk): encodes (id, chunk) via the
    Frame Codec and sends it as a binary unit over the connection.
    Returns whether the stream will accept further writes"; after
    end() a "subsequent write fails with a StreamClosed error". *)
Definition write (w : MetaWritable) (chunk : bytes) : M T bool :=
  if w_finalized w then throw StreamClosed
  else send (Binary (Chunk.encode ID_LENGTH (w_id w) chunk));; ret true.

Definition status_packet (w : MetaWritable) (status : string) : wire_unit :=
  Text (JSON_stringify (JObj [("stream", JNum (Int (w_id w))); ("status", JStr status)])).

(** Modelled from the spec: "end(): sends {stream: id, status: end};
    marks the stream finalized"; "a second call is a no-op". *)
Definition end_ (w : MetaWritable) : M T MetaWritable :=
  if w_finalized w then ret w
  else send (status_packet w "end");; ret (finalize w).

(** Modelled from the spec: "terminate(): sends {stream: id, status:
    terminate}; marks the stream finalized/aborted". *)
Definition terminate (w : MetaWritable) : M T MetaWritable :=
  if w_finalized w then ret w
  else send (status_packet w "terminate");; ret (finalize w).
End Writable.
End Writable.

(** The transport of the streams tests: [send] appends to a buffer. *)
Definition writeBuffer_send : Transport (list wire_unit) :=
  fun packet buffer => (Ok tt, buffer ++ [packet]).

(** ** The connection (metacom.js) *)

Definition CALL_TIMEOUT : Z := 7 * 1000.
Definition PING_INTERVAL : Z := 60 * 1000.
Definition RECONNECT_TIMEOUT : Z := 2 * 1000.

(** The two subclasses of [Metacom]. *)
Inductive transport_kind := Ws | Http.

Inductive timer :=
  | Reconnect
  | CallTimeout (callId : Z) (promise : nat)
  | Ping.

(** What the client does to the outside world, in order. [Called] marks
    the entry into a method; [Resolve] and [Reject] are the two
    continuations of a promise; [Unhandled] is a rejected promise or a
    callback exception that nothing catches. *)
Inductive effect :=
  | Called (method : string)
  | NewWebSocket (sock : nat) (url : string)
  | SocketSend (sock : nat) (data : wire_unit)
  | SocketClosing (sock : nat)
  | Fetch (url : string) (data : wire_unit)
  | Emit (name : string)
  | InterfaceEmit (interfaceName : string) (eventName : option string) (args : option json)
  | SetTimeout (callback : timer) (delay : Z)
  | SetInterval (callback : timer) (delay : Z)
  | Resolve (promise : nat) (value : option json)
  | Reject (promise : nat) (reason : error)
  | ConsoleError (e : error)
  | ConsoleWarn (e : error)
  | Unhandled (e : error).

(** A call stub suspended at one of its two awaits. *)
Inductive stage := AwaitOpening | AwaitOpen.

Record parked_call := {
  pc_callId : Z;
  pc_target : string;
  pc_args : json;
  pc_stage : stage
}.

(** The fields of a [Metacom] object. [calls] maps a call id to the
    promise whose resolve and reject functions the entry holds; [streams]
    maps a stream id to the address of the [MetaReadable] object; [socket]
    and [opening] hold handles; [api] maps an interface to its method
    names; [kind] is the class of the object. *)
Record Metacom := {
  url : string;
  socket : option nat;
  api : gmap string (list string);
  callId : Z;
  calls : gmap key nat;
  streams : gmap key nat;
  streamId : Z;
  eventId : Z;
  active : bool;
  connected : bool;
  opening : option nat;
  lastActivity : Z;
  callTimeout : Z;
  pingInterval : Z;
  reconnectTimeout : Z;
  kind : transport_kind
}.

Definition set_socket (v : option nat) (c : Metacom) : Metacom :=
  {| url := url c; socket := v; api := api c; callId := callId c; calls := calls c;
     streams := streams c; streamId := streamId c; eventId := eventId c;
     active := active c; connected := connected c; opening := opening c;
     lastActivity := lastActivity c; callTimeout := callTimeout c;
     pingInterval := pingInterval c; reconnectTimeout := reconnectTimeout c;
     kind := kind c |}.

Definition set_api (v : gmap string (list string)) (c : Metacom) : Metacom :=
  {| url := url c; socket := socket c; api := v; callId := callId c; calls := calls c;
     streams := streams c; streamId := streamId c; eventId := eventId c;
     active := active c; connected := connected c; opening := opening c;
     lastActivity := lastActivity c; callTimeout := callTimeout c;
     pingInterval := pingInterval c; reconnectTimeout := reconnectTimeout c;
     kind := kind c |}.

Definition set_callId (v : Z) (c : Metacom) : Metacom :=
  {| url := url c; socket := socket c; api := api c; callId := v; calls := calls c;
     streams := streams c; streamId := streamId c; eventId := eventId c;
     active := active c; connected := connected c; opening := opening c;
     lastActivity := lastActivity c; callTimeout := callTimeout c;
     pingInterval := pingInterval c; reconnectTimeout := reconnectTimeout c;
     kind := kind c |}.

Definition set_calls (v : gmap key nat) (c : Metacom) : Metacom :=
  {| url := url c; socket := socket c; api := api c; callId := callId c; calls := v;
     streams := streams c; streamId := streamId c; eventId := eventId c;
     active := active c; connected := connected c; opening := opening c;
     lastActivity := lastActivity c; callTimeout := callTimeout c;
     pingInterval := pingInterval c; reconnectTimeout := reconnectTimeout c;
     kind := kind c |}.

Definition set_streams (v : gmap key nat) (c : Metacom) : Metacom :=
  {| url := url c; socket := socket c; api := api c; callId := callId c;
     calls := calls c; streams := v; streamId := streamId c; eventId := eventId c;
     active := active c; connected := connected c; opening := opening c;
     lastActivity := lastActivity c; callTimeout := callTimeout c;
     pingInterval := pingInterval c; reconnectTimeout := reconnectTimeout c;
     kind := kind c |}.

Definition set_streamId (v : Z) (c : Metacom) : Metacom :=
  {| url := url c; socket := socket c; api := api c; callId := callId c;
     calls := calls c; streams := streams c; streamId := v; eventId := eventId c;
     active := active c; connected := connected c; opening := opening c;
     lastActivity := lastActivity c; callTimeout := callTimeout c;
     pingInterval := pingInterval c; reconnectTimeout := reconnectTimeout c;
     kind := kind c |}.

Definition set_eventId (v : Z) (c : Metacom) : Metacom :=
  {| url := url c; socket := socket c; api := api c; callId := callId c;
     calls := calls c; streams := streams c; streamId := streamId c; eventId := v;
     active := active c; connected := connected c; opening := opening c;
     lastActivity := lastActivity c; callTimeout := callTimeout c;
     pingInterval := pingInterval c; reconnectTimeout := reconnectTimeout c;
     kind := kind c |}.

Definition set_active (v : bool) (c : Metacom) : Metacom :=
  {| url := url c; socket := socket c; api := api c; callId := callId c;
     calls := calls c; streams := streams c; streamId := streamId c;
     eventId := eventId c; active := v; connected := connected c; opening := opening c;
     lastActivity := lastActivity c; callTimeout := callTimeout c;
     pingInterval := pingInterval c; reconnectTimeout := reconnectTimeout c;
     kind := kind c |}.

Definition set_connected (v : bool) (c : Metacom) : Metacom :=
  {| url := url c; socket := socket c; api := api c; callId := callId c;
     calls := calls c; streams := streams c; streamId := streamId c;
     eventId := eventId c; active := active c; connected := v; opening := opening c;
     lastActivity := lastActivity c; callTimeout := callTimeout c;
     pingInterval := pingInterval c; reconnectTimeout := reconnectTimeout c;
     kind := kind c |}.

Definition set_opening (v : option nat) (c : Metacom) : Metacom :=
  {| url := url c; socket := socket c; api := api c; callId := callId c;
     calls := calls c; streams := streams c; streamId := streamId c;
     eventId := eventId c; active := active c; connected := connected c; opening := v;
     lastActivity := lastActivity c; callTimeout := callTimeout c;
     pingInterval := pingInterval c; reconnectTimeout := reconnectTimeout c;
     kind := kind c |}.

Definition set_lastActivity (v : Z) (c : Metacom) : Metacom :=
  {| url := url c; socket := socket c; api := api c; callId := callId c;
     calls := calls c; streams := streams c; streamId := streamId c;
     eventId := eventId c; active := active c; connected := connected c;
     opening := opening c; lastActivity := v; callTimeout := callTimeout c;
     pingInterval := pingInterval c; reconnectTimeout := reconnectTimeout c;
     kind := kind c |}.

(** The connection in its environment: the module-level set [connections]
    (as the identities of its members, [self] being this connection), the
    [MetaReadable] objects, the open listener of each socket created (the
    promise it resolves), the suspended call stubs with the promise each
    awaits, the clock behind [new Date().getTime()], the next free handle
    and the effects so far. *)
Record World := {
  this : Metacom;
  self : nat;
  connections : gset nat;
  heap : gmap nat MetaReadable;
  listeners : gmap nat nat;
  parked : list (nat * parked_call);
  clock : Z;
  fresh : nat;
  trace : list effect
}.

Definition set_this (v : Metacom) (w : World) : World :=
  {| this := v; self := self w; connections := connections w; heap := heap w;
     listeners := listeners w; parked := parked w; clock := clock w; fresh := fresh w;
     trace := trace w |}.

Definition set_connections (v : gset nat) (w : World) : World :=
  {| this := this w; self := self w; connections := v; heap := heap w;
     listeners := listeners w; parked := parked w; clock := clock w; fresh := fresh w;
     trace := trace w |}.

Definition set_heap (v : gmap nat MetaReadable) (w : World) : World :=
  {| this := this w; self := self w; connections := connections w; heap := v;
     listeners := listeners w; parked := parked w; clock := clock w; fresh := fresh w;
     trace := trace w |}.

Definition set_listeners (v : gmap nat nat) (w : World) : World :=
  {| this := this w; self := self w; connections := connections w; heap := heap w;
     listeners := v; parked := parked w; clock := clock w; fresh := fresh w;
     trace := trace w |}.

Definition set_parked (v : list (nat * parked_call)) (w : World) : World :=
  {| this := this w; self := self w; connections := connections w; heap := heap w;
     listeners := listeners w; parked := v; clock := clock w; fresh := fresh w;
     trace := trace w |}.

Definition set_clock (v : Z) (w : World) : World :=
  {| this := this w; self := self w; connections := connections w; heap := heap w;
     listeners := listeners w; parked := parked w; clock := v; fresh := fresh w;
     trace := trace w |}.

Definition set_fresh (v : nat) (w : World) : World :=
  {| this := this w; self := self w; connections := connections w; heap := heap w;
     listeners := listeners w; parked := parked w; clock := clock w; fresh := v;
     trace := trace w |}.

Definition set_trace (v : list effect) (w : World) : World :=
  {| this := this w; self := self w; connections := connections w; heap := heap w;
     listeners := listeners w; parked := parked w; clock := clock w; fresh := fresh w;
     trace := v |}.

Inductive open_result :=
  | Pending (promise : nat)   (* settles when [promise] does *)
  | Resolved.                 (* already resolved *)

(** The first two pieces of [target.split('/')]. *)
Fixpoint split_on (sep : Ascii.ascii) (s : string) : list string :=
  match s with
  | EmptyString => [EmptyString]
  | String c rest =>
      if Ascii.eqb c sep then EmptyString :: split_on sep rest
      else match split_on sep rest with
           | piece :: pieces => String c piece :: pieces
           | [] => [String c EmptyString]
           end
  end.

(** The key of a value that was just parsed, for a [Map] lookup: a parsed
    object or array is a new object, which no [Map] holds. *)
Definition prim_key (v : json) : option key :=
  match v with
  | JNull => Some KNull
  | JBool b => Some (KBool b)
  | JNum n => Some (KNum n)
  | JStr s => Some (KStr s)
  | JArr _ | JObj _ => None
  end.

(** [map.get(v)] for a value [v] read from a packet. *)
Definition map_get {V : Type} (m : gmap key V) (v : option json) : option V :=
  match v with
  | Some x => match prim_key x with
              | Some k => m !! k
              | None => None
              end
  | None => None
  end.

Definition is_string (v : option json) : bool :=
  match v with
  | Some (JStr _) => true
  | _ => false
  end.

Definition is_literal (v : option json) (s : string) : bool :=
  match v with
  | Some (JStr x) => String.eqb x s
  | _ => false
  end.

(** The string and the integer a checked packet field holds. *)
Definition string_of (v : option json) : string :=
  match v with
  | Some (JStr x) => x
  | _ => EmptyString
  end.

Definition integer_of (v : option json) : Z :=
  match v with
  | Some (JNum (Int z)) => z
  | _ => 0
  end.

(** The test of the stream branch for an init packet:
    [name && typeof name === 'string' && Number.isSafeInteger(size)]. *)
Definition is_init (packet : json) : bool :=
  truthy (js_get packet "name") && is_string (js_get packet "name")
  && Number_isSafeInteger (js_get packet "size").

(** [callType === s] *)
Definition is_type (callType : option string) (s : string) : bool :=
  match callType with
  | Some x => String.eqb x s
  | None => false
  end.

(** What a socket delivers: a string or a blob. *)
Inductive inbound :=
  | TextData (s : string)
  | BlobData (b : bytes).

(** [options.x || DEFAULT] *)
Definition or_default (option : option Z) (default : Z) : Z :=
  match option with
  | Some z => if z =? 0 then default else z
  | None => default
  end.

Record options := {
  opt_callTimeout : option Z;
  opt_pingInterval : option Z;
  opt_reconnectTimeout : option Z
}.

(** What happens to a connection: the events of its sockets, the reply
    to a request of the HTTP binding, its timers, the [online] event of
    the window, the passing of time, an interface calling its listener for
    '*', and the calls of the user. Each event is one task of the event
    loop, run to its end with the continuations it makes ready; several
    calls of the user made within one task are not an event. For a blob,
    [SocketMessage] is the moment at which [blob.arrayBuffer()] has
    delivered its bytes, which is when [binary] goes on: it may be later
    than the events of units received after the blob. *)
Inductive event :=
  | SocketOpened (sock : nat)
  | SocketClosed (sock : nat)
  | SocketFailed (sock : nat)
  | SocketMessage (sock : nat) (data : inbound)
  | HttpResponse (text : string)
  | ReconnectTimer
  | CallTimer (callId : Z) (promise : nat)
  | PingTimer
  | Online
  | Tick (time : Z)
  | InterfaceEvent (interfaceName eventName : string) (data : option json)
  | UserOpen
  | UserClose
  | UserSend (data : wire_unit)
  | UserCall (iname : string) (ver : option string) (methodName : string) (args : option json)
  | UserLoaded (interfaces : list string) (introspection : json)
  | UserGetStream (streamId : option json)
  | UserCreateStream (name : string) (size : Z).

(** The calls of the user that call [open()]: [open()] itself, a call
    stub, and [load], which calls stubs. *)
Definition reopens (e : event) : bool :=
  match e with
  | UserOpen | UserCall _ _ _ _ | UserLoaded _ _ => true
  | _ => false
  end.

(** The events that are not calls of the user. *)
Definition automatic (e : event) : bool :=
  match e with
  | SocketOpened _ | SocketClosed _ | SocketFailed _ | SocketMessage _ _
  | HttpResponse _ | ReconnectTimer | CallTimer _ _ | PingTimer | Online | Tick _
  | InterfaceEvent _ _ _ => true
  | _ => false
  end.

Section Connection.
(** The header width of streams.js and the two JSON built-ins. *)
Variable ID_LENGTH : nat.
Variable JSON_parse : string -> option json.
Variable JSON_stringify : json -> string.

(** *** Access to the state *)

Definition read {A : Type} (f : Metacom -> A) : M World A :=
  fun w => (Ok (f (this w)), w).

Definition update (f : Metacom -> Metacom) : M World unit :=
  fun w => (Ok tt, set_this (f (this w)) w).

(** A look at the environment of the connection. *)
Definition inspect {A : Type} (f : World -> A) : M World A := fun w => (Ok (f w), w).

(** A change of the environment of the connection. *)
Definition modify (f : World -> World) : M World unit := fun w => (Ok tt, f w).

Definition log (e : effect) : M World unit :=
  modify (fun w => set_trace (trace w ++ [e]) w).

(** A new handle: a socket, a promise or an object. *)
Definition alloc : M World nat :=
  fun w => (Ok (fresh w), set_fresh (S (fresh w)) w).

(** [new Date().getTime()] *)
Definition now : M World Z := inspect clock.

(** Modelled from the spec: [emit] of the [EventEmitter] base class
    (events.js, not among the sources); the connection "emits: open,
    close, error" to its observers. *)
Definition emit (name : string) : M World unit := log (Emit name).

(** *** WebsocketTransport *)

(** [open()]. The listeners for message, close and error are those of
    [handle] below; the listener for open resolves the promise [p]. *)
Definition WebsocketTransport_open : M World open_result :=
  log (Called "open");;
  let! c := read id in
  match opening c with
  | Some p => ret (Pending p)
  | None =>
      if connected c then ret Resolved
      else
        let! sock := alloc in
        log (NewWebSocket sock (url c));;
        update (set_active true);;
        update (set_socket (Some sock));;
        modify (fun w => set_connections ({[self w]} ∪ connections w) w);;
        log (SetInterval Ping (pingInterval c));;
        let! p := alloc in
        modify (fun w => set_listeners (<[sock := p]> (listeners w)) w);;
        update (set_opening (Some p));;
        ret (Pending p)
  end.

Definition WebsocketTransport_close : M World unit :=
  update (set_active false);;
  modify (fun w => set_connections (connections w ∖ {[self w]}) w);;
  let! c := read id in
  match socket c with
  | None => ret tt
  | Some sock =>
      log (SocketClosing sock);;
      update (set_socket None)
  end.

Definition WebsocketTransport_send (data : wire_unit) : M World unit :=
  let! c := read id in
  if negb (connected c) then ret tt
  else
    let! t := now in
    update (set_lastActivity t);;
    match socket c with
    | Some sock => log (SocketSend sock data)
    | None => throw TypeError
    end.

(** *** HttpTransport *)

Definition HttpTransport_open : M World open_result :=
  log (Called "open");;
  update (set_active true);;
  update (set_connected true);;
  emit "open";;
  ret Resolved.

Definition HttpTransport_close : M World unit :=
  update (set_active false);;
  update (set_connected false).

Definition HttpTransport_send (data : wire_unit) : M World unit :=
  let! t := now in
  update (set_lastActivity t);;
  let! c := read id in
  log (Fetch (url c) data).

(** *** Method dispatch on the class of the object *)

Definition open : M World open_result :=
  let! c := read id in
  match kind c with
  | Ws => WebsocketTransport_open
  | Http => HttpTransport_open
  end.

Definition close : M World unit :=
  let! c := read id in
  match kind c with
  | Ws => WebsocketTransport_close
  | Http => HttpTransport_close
  end.

Definition Metacom_send (data : wire_unit) : M World unit :=
  let! c := read id in
  match kind c with
  | Ws => WebsocketTransport_send data
  | Http => HttpTransport_send data
  end.

#[local] Instance Metacom_transport : Transport World := Metacom_send.

(** *** Metacom *)

(** [getStream(streamId)]: the address of the stream object. *)
Definition getStream (streamId : option json) : M World nat :=
  let! c := read id in
  match map_get (streams c) streamId with
  | Some stream => ret stream
  | None =>
      throw (StreamNotInitialized streamId)
  end.

(** [createStream(name, size)] *)
Definition createStream (name : string) (size : Z) : M World MetaWritable :=
  let! c := read id in
  let streamId := streamId c + 1 in
  update (set_streamId streamId);;
  Writable.new JSON_stringify streamId name size.

(** The callback branch of [message]. *)
Definition on_callback (packet : json) (callId args : option json) : M World unit :=
  let! c := read id in
  match map_get (calls c) callId with
  | None => ret tt
  | Some promised =>
      update (set_calls
        (match callId ≫= prim_key with
         | Some k => delete k (calls c)
         | None => calls c
         end));;
      let err := js_get packet "error" in
      if truthy err then
        log (Reject promised
               (MetacomError (err ≫= fun e => js_get e "message")
                             (err ≫= fun e => js_get e "code")))
      else log (Resolve promised args)
  end.

(** The event branch of [message]. Reading [emit] from an interface
    that is not in [api] throws. [emit] is taken to be the method of the
    emitter: an interface that was loaded with a remote method of the
    name emit has the stub of that method in its place, a case the
    statements about this branch exclude. *)
Definition on_event (target : option string) (payload : option json) : M World unit :=
  match target with
  | None => throw TypeError
  | Some t =>
      let parts := split_on "/" t in
      let interfaceName := default EmptyString (parts !! 0%nat) in
      let eventName := parts !! 1%nat in
      let! c := read id in
      match api c !! interfaceName with
      | None => throw TypeError
      | Some _ => log (InterfaceEmit interfaceName eventName payload)
      end
  end.

(** The stream branch of [message]. The two awaits ([stream.close()],
    [stream.terminate()]) complete within the dispatch of the packet. *)
Definition on_stream (packet : json) : M World unit :=
  let streamId := js_get packet "stream" in
  let name := js_get packet "name" in
  let size := js_get packet "size" in
  let status := js_get packet "status" in
  let! c := read id in
  let stream := map_get (streams c) streamId in
  let without :=
    match streamId ≫= prim_key with
    | Some k => delete k (streams c)
    | None => streams c
    end in
  if is_init packet then
    match stream with
    | Some _ => log (ConsoleError (StreamAlreadyInitialized (string_of name)))
    | None =>
        let! k := match streamId ≫= prim_key with
                  | Some k => ret k
                  | None => let! a := alloc in ret (KRef a)
                  end in
        let! a := alloc in
        let stream := Readable.new k (string_of name) (integer_of size) in
        modify (fun w => set_heap (<[a := stream]> (heap w)) w);;
        update (set_streams (<[k := a]> (streams c)))
    end
  else
    match stream with
    | None => log (ConsoleError (StreamNotInitialized streamId))
    | Some a =>
        if is_literal status "end" then
          modify (fun w => set_heap (alter Readable.close a (heap w)) w);;
          update (set_streams without)
        else if is_literal status "terminate" then
          modify (fun w => set_heap (alter Readable.terminate a (heap w)) w);;
          update (set_streams without)
        else log (ConsoleError StreamPacketStructure)
    end.

(** The part of [message] after [JSON.parse]. *)
Definition dispatch (packet : json) : M World unit :=
  let! keys := lift (Object_keys packet) in
  let callType := keys !! 0%nat in
  let target := keys !! 1%nat in
  let callId := js_get_opt packet callType in
  let args := js_get_opt packet target in
  if truthy callId then
    if is_type callType "callback" then on_callback packet callId args
    else if is_type callType "event" then on_event target args
    else if is_type callType "stream" then on_stream packet
    else ret tt
  else ret tt.

(** [message(data)]: the heartbeat is dropped first, then the time of
    receipt is recorded, then the text is parsed; a text that does not
    parse is dropped in the [catch] block. *)
Definition message (data : string) : M World unit :=
  if String.eqb data "{}" then ret tt
  else
    let! t := now in
    update (set_lastActivity t);;
    match JSON_parse data with
    | None => ret tt
    | Some packet => dispatch packet
    end.

(** [binary(blob)] from the lookup of the stream on, the bytes of the
    blob having been read. *)
Definition binary (blob : bytes) : M World unit :=
  match Chunk.decode ID_LENGTH blob with
  | Throw _ => throw FrameError
  | Ok (Chunk.Frame streamId payload) =>
      let! c := read id in
      match streams c !! num streamId with
      | Some a =>
          let! object := inspect (fun w => heap w !! a) in
          match object with
          | Some stream =>
              let! stream' := lift (Readable.push stream payload) in
              modify (fun w => set_heap (<[a := stream']> (heap w)) w)
          | None => ret tt
          end
      | None => log (ConsoleWarn (StreamNotInitialized (Some (JNum (Int streamId)))))
      end
  end.

(** *** Calls *)

(** The executor of the promise a call stub returns. A throw inside the
    executor rejects the promise. *)
Definition executor (callId : Z) (target : string) (args : json) : M World nat :=
  let! promise := alloc in
  let! c := read id in
  log (SetTimeout (CallTimeout callId promise) (callTimeout c));;
  update (set_calls (<[num callId := promise]> (calls c)));;
  let packet := JObj [("call", JNum (Int callId)); (target, args)] in
  let! r := try (Metacom_send (Text (JSON_stringify packet))) in
  match r with
  | Ok _ => ret tt
  | Throw e => log (Reject promise e)
  end;;
  ret promise.

Definition park (promise : nat) (pc : parked_call) : M World unit :=
  modify (fun w => set_parked (parked w ++ [(promise, pc)]) w).

(** The stub from [if (!this.connected) await this.open()] on. When
    [open()] has completed on return, as it has for the HTTP binding, the
    stub goes on within the same task. *)
Definition call_connected (callId : Z) (target : string) (args : json)
    : M World (option nat) :=
  let! c := read id in
  if connected c then
    let! promise := executor callId target args in ret (Some promise)
  else
    let! r := open in
    match r with
    | Pending p =>
        park p {| pc_callId := callId; pc_target := target; pc_args := args;
                  pc_stage := AwaitOpen |};;
        ret None
    | Resolved =>
        let! promise := executor callId target args in ret (Some promise)
    end.

Definition is_empty (s : string) : bool := String.eqb s EmptyString.

(** [scaffold(iname, ver)(methodName)(args)]: the call id assigned, and
    the promise registered unless the stub is suspended. *)
Definition scaffold (iname : string) (ver : option string) (methodName : string)
    (args : option json) : M World (Z * option nat) :=
  let! c := read id in
  let callId := callId c + 1 in
  update (set_callId callId);;
  let interfaceName :=
    match ver with
    | Some v => if is_empty v then iname else iname +:+ "." +:+ v
    | None => iname
    end in
  let target := interfaceName +:+ "/" +:+ methodName in
  let args := default (JObj []) args in
  match opening c with
  | Some p =>
      park p {| pc_callId := callId; pc_target := target; pc_args := args;
                pc_stage := AwaitOpening |};;
      ret (callId, None)
  | None =>
      let! promise := call_connected callId target args in
      ret (callId, promise)
  end.

Definition resume (pc : parked_call) : M World unit :=
  match pc_stage pc with
  | AwaitOpening => call_connected (pc_callId pc) (pc_target pc) (pc_args pc);; ret tt
  | AwaitOpen => executor (pc_callId pc) (pc_target pc) (pc_args pc);; ret tt
  end.

Fixpoint resume_all (pcs : list parked_call) : M World unit :=
  match pcs with
  | [] => ret tt
  | pc :: rest => resume pc;; resume_all rest
  end.

Definition awaits_opening (x : nat * parked_call) : bool :=
  match pc_stage (snd x) with
  | AwaitOpening => true
  | AwaitOpen => false
  end.

(** [resolve()] of the promise [p]: the stubs that await it go on. A
    stub suspended at [await this.opening] awaits the promise itself; a
    stub suspended at [await this.open()] awaits the promise of the async
    [open()], which follows [opening] and is settled after the reactions
    of [opening] have run, so it goes on after the others. *)
Definition settle (p : nat) : M World unit :=
  log (Resolve p None);;
  let! waiting := inspect (fun w => List.filter (fun x => Nat.eqb (fst x) p) (parked w)) in
  modify (fun w => set_parked (List.filter (fun x => negb (Nat.eqb (fst x) p)) (parked w)) w);;
  resume_all (snd <$> (List.filter awaits_opening waiting
                       ++ List.filter (fun x => negb (awaits_opening x)) waiting)).

(** *** Interfaces *)

(** The listener [load] registers on every interface for the event '*'. *)
Definition on_any (interfaceName eventName : string) (data : option json) : M World unit :=
  let! c := read id in
  let eventId := eventId c + 1 in
  update (set_eventId eventId);;
  let target := interfaceName +:+ "/" +:+ eventName in
  let packet :=
    JObj (("event", JNum (Int eventId)) ::
          match data with
          | Some d => [(target, d)]
          | None => []
          end) in
  Metacom_send (Text (JSON_stringify packet)).

(** [load] from the reply of the introspection call on. The entry of
    [api] stands for the interface object with the stubs of the methods
    listed; [methods.on] is taken to be the method of the emitter: for an
    interface with a remote method of the name on it is the stub of that
    method, a case the statements about [load] exclude. *)
Fixpoint load_each (introspection : json) (available interfaces : list string)
    : M World unit :=
  match interfaces with
  | [] => ret tt
  | interfaceName :: rest =>
      (if existsb (String.eqb interfaceName) available then
         match js_get introspection interfaceName with
         | Some iface =>
             let! methodNames := lift (Object_keys iface) in
             let! c := read id in
             update (set_api (<[interfaceName := methodNames]> (api c)))
         | None => throw TypeError
         end
       else ret tt);;
      load_each introspection available rest
  end.

Definition load_reply (interfaces : list string) (introspection : json) : M World unit :=
  let! available := lift (Object_keys introspection) in
  load_each introspection available interfaces.

(** *** Listeners and timers *)

(** A call whose promise is dropped, or a callback of the browser. *)
Definition detached {A : Type} (m : M World A) : M World unit :=
  let! r := try m in
  match r with
  | Ok _ => ret tt
  | Throw e => log (Unhandled e)
  end.

(** The listener for message of a socket; also what the HTTP binding
    does with the text of a response. *)
Definition on_socket_message (data : inbound) : M World unit :=
  match data with
  | TextData text => detached (message text)
  | BlobData blob => detached (binary blob)
  end.

(** The listener for close of a socket. *)
Definition on_socket_close : M World unit :=
  update (set_opening None);;
  update (set_connected false);;
  emit "close";;
  let! c := read id in
  log (SetTimeout Reconnect (reconnectTimeout c)).

(** The listener for error of a socket. *)
Definition on_socket_error (sock : nat) : M World unit :=
  emit "error";;
  log (SocketClosing sock).

(** The listener for open of a socket, inside the [opening] promise. *)
Definition on_socket_open (promise : nat) : M World unit :=
  update (set_opening None);;
  update (set_connected true);;
  emit "open";;
  settle promise.

(** The callback of the timer the close listener arms. *)
Definition on_reconnect_timer : M World unit :=
  let! c := read id in
  if active c then detached open else ret tt.

(** The callback of the timer of a call. *)
Definition on_call_timer (callId : Z) (promise : nat) : M World unit :=
  let! c := read id in
  match calls c !! num callId with
  | Some _ =>
      update (set_calls (delete (num callId) (calls c)));;
      log (Reject promise RequestTimeout)
  | None => ret tt
  end.

(** The callback of the interval [open] sets. *)
Definition on_ping_timer : M World unit :=
  let! c := read id in
  if active c then
    let! t := now in
    if pingInterval c <? t - lastActivity c
    then detached (Metacom_send (Text "{}"))
    else ret tt
  else ret tt.

(** The listener of the window's [online] event, as far as it concerns
    this connection. *)
Definition on_online : M World unit :=
  let! registered := inspect (fun w => bool_decide (self w ∈ connections w)) in
  if registered then
    let! c := read id in
    if connected c then ret tt else detached open
  else ret tt.

(** A listener exists on the sockets that [open] created. *)
Definition on_socket (sock : nat) (listener : M World unit) : M World unit :=
  let! known := inspect (fun w => bool_decide (sock ∈ dom (listeners w))) in
  if known then listener else ret tt.

(** What the connection does on an event. *)
Definition handle (e : event) : M World unit :=
  match e with
  | SocketOpened sock =>
      let! listener := inspect (fun w => listeners w !! sock) in
      match listener with
      | Some p => on_socket_open p
      | None => ret tt
      end
  | SocketClosed sock => on_socket sock on_socket_close
  | SocketFailed sock => on_socket sock (on_socket_error sock)
  | SocketMessage sock data => on_socket sock (on_socket_message data)
  | HttpResponse text => detached (message text)
  | ReconnectTimer => on_reconnect_timer
  | CallTimer callId promise => on_call_timer callId promise
  | PingTimer => on_ping_timer
  | Online => on_online
  | Tick time => modify (fun w => set_clock (Z.max (clock w) time) w)
  | InterfaceEvent interfaceName eventName data =>
      let! c := read id in
      match api c !! interfaceName with
      | Some _ => detached (on_any interfaceName eventName data)
      | None => ret tt
      end
  | UserOpen => open;; ret tt
  | UserClose => close
  | UserSend data => Metacom_send data
  | UserCall iname ver methodName args => scaffold iname ver methodName args;; ret tt
  | UserLoaded interfaces introspection => load_reply interfaces introspection
  | UserGetStream streamId => getStream streamId;; ret tt
  | UserCreateStream name size => createStream name size;; ret tt
  end.

(** The state after an event; what a call of the user throws goes back to
    the user. *)
Definition step (e : event) (w : World) : World := snd (handle e w).

Definition run (es : list event) (w : World) : World := fold_left (fun w e => step e w) es w.

(** *** Construction *)

Definition Metacom_new (k : transport_kind) (url : string) (o : options) (time : Z)
    : Metacom :=
  {| url := url; socket := None; api := ∅; callId := 0; calls := ∅; streams := ∅;
     streamId := 0; eventId := 0; active := false; connected := false;
     opening := None; lastActivity := time;
     callTimeout := or_default (opt_callTimeout o) CALL_TIMEOUT;
     pingInterval := or_default (opt_pingInterval o) PING_INTERVAL;
     reconnectTimeout := or_default (opt_reconnectTimeout o) RECONNECT_TIMEOUT;
     kind := k |}.

(** [Metacom.create(url, options)] at the time [time], [others] being
    the connections registered so far: the constructor ends with
    [this.open()]. *)
Definition create (url : string) (o : options) (me : nat) (others : gset nat) (time : Z)
    : World :=
  let k := if String.prefix "ws" url then Ws else Http in
  snd (open {| this := Metacom_new k url o time; self := me; connections := others;
               heap := ∅; listeners := ∅; parked := []; clock := time;
               fresh := 0%nat; trace := [] |}).

End Connection.

(** ** Blob uploads (metacom.js) *)

(** A [Blob] or [File] given to [createBlobUploader]: [name] is
    undefined on a plain blob; [blob_reads] are the chunks its reader
    yields, each with the events that happen while [upload] awaits it,
    and [blob_done] the events before the reader reports the end. *)
Record Blob := {
  blob_name : option string;
  blob_size : Z;
  blob_reads : list (list event * bytes);
  blob_done : list event
}.

Section Uploader.
Variable ID_LENGTH : nat.
Variable JSON_parse : string -> option json.
Variable JSON_stringify : json -> string.

#[local] Existing Instance Metacom_transport.

(** [createBlobUploader(blob)]: the consumer, whose id is the [streamId]
    of the uploader. *)
Definition createBlobUploader (blob : Blob) : M World MetaWritable :=
  let name :=
    match blob_name blob with
    | Some s => if String.eqb s EmptyString then "blob" else s
    | None => "blob"
    end in
  createStream JSON_stringify name (blob_size blob).

(** The loop of [upload]: at each [await reader.read()] other events
    come first. *)
Fixpoint upload_chunks (consumer : MetaWritable) (reads : list (list event * bytes))
    : M World unit :=
  match reads with
  | [] => ret tt
  | (es, chunk) :: rest =>
      modify (run ID_LENGTH JSON_parse JSON_stringify es);;
      Writable.write ID_LENGTH consumer chunk;;
      upload_chunks consumer rest
  end.

(** [upload()] of the uploader. *)
Definition upload (consumer : MetaWritable) (blob : Blob) : M World MetaWritable :=
  upload_chunks consumer (blob_reads blob);;
  modify (run ID_LENGTH JSON_parse JSON_stringify (blob_done blob));;
  Writable.end_ JSON_stringify consumer.

End Uploader.

(** ** Observations used in the statements *)

(** The state after [this.lastActivity = new Date().getTime()]. *)
Definition touched (w : World) : World :=
  set_this (set_lastActivity (clock w) (this w)) w.

(** The state after appending the effects [es]. *)
Definition logged (es : list effect) (w : World) : World :=
  set_trace (trace w ++ es) w.

Definition is_open_call (e : effect) : bool :=
  match e with
  | Called m => String.eqb m "open"
  | _ => false
  end.

(** How many times [open()] was entered. *)
Definition opens (t : list effect) : nat := length (List.filter is_open_call t).
Arguments opens : simpl never.

Definition is_new_socket (e : effect) : bool :=
  match e with
  | NewWebSocket _ _ => true
  | _ => false
  end.

(** How many transport connections were created. *)
Definition sockets_created (t : list effect) : nat := length (List.filter is_new_socket t).

Definition is_log (e : effect) : bool :=
  match e with
  | ConsoleError _ | ConsoleWarn _ => true
  | _ => false
  end.

(** What the client wrote to the console. *)
Definition console (t : list effect) : list effect := List.filter is_log t.


(** The state after a text unit was received: all but the heartbeat
    record the time. *)
Definition received (data : string) (w : World) : World :=
  if String.eqb data "{}" then w else touched w.

(** An invariant of a computation. *)
Definition inv {A : Type} (P : World -> Prop) (m : M World A) : Prop :=
  forall w, P w -> P (snd (m w)).

(** The two id counters are at least [c] and [e]. *)
Definition counters_from (c e : Z) (w : World) : Prop :=
  c <= callId (this w) /\ e <= eventId (this w).

(** The unit is a text unit coming in from the peer. *)
Definition inbound_text (e : event) : bool :=
  match e with
  | SocketMessage _ (TextData _) | HttpResponse _ => true
  | _ => false
  end.

(** The stream map is [s]. *)
Definition streams_are (s : gmap key nat) (w : World) : Prop := streams (this w) = s.

(** The init packet the writable of [createStream] sends. *)
Definition init_packet (id : Z) (name : string) (size : Z) : json :=
  JObj [("stream", JNum (Int id)); ("name", JStr name); ("size", JNum (Int size))].

(** The connection was closed by [close()]: it is inactive and not in
    [connections], and [open()] was entered [n] times so far. *)
Definition quiet (n : nat) (w : World) : Prop :=
  active (this w) = false /\ (self w ∉ connections w) /\ opens (trace w) = n.

Definition quiet_connected (n : nat) (w : World) : Prop :=
  quiet n w /\ connected (this w) = true.

(** The call [id] was issued and is over: it has no entry in the
    registry and no stub of it is suspended. *)
Definition settled (id : Z) (w : World) : Prop :=
  calls (this w) !! num id = None /\
  id <= callId (this w) /\
  Forall (fun x => pc_callId (snd x) <> id) (parked w).

(** The call ids of the suspended stubs. *)
Definition parked_ids (w : World) : list Z := (fun x => pc_callId (snd x)) <$> parked w.

(** Every call id in the registry was issued, and the suspended stubs,
    together with the stubs [resuming] that are about to go on, have
    distinct issued ids without an entry in the registry. *)
Definition well_formed_with (resuming : list Z) (w : World) : Prop :=
  (forall z, is_Some (calls (this w) !! num z) -> z <= callId (this w)) /\
  Forall (fun i => i <= callId (this w) /\ calls (this w) !! num i = None)
         (resuming ++ parked_ids w) /\
  NoDup (resuming ++ parked_ids w).

Definition well_formed (w : World) : Prop := well_formed_with [] w.

(** The states a connection gets into: those that events lead to from
    a connection just created. *)
Definition reachable (ID_LENGTH : nat) (JSON_parse : string -> option json)
    (JSON_stringify : json -> string) (w : World) : Prop :=
  exists url o me others time es,
    w = run ID_LENGTH JSON_parse JSON_stringify es (create url o me others time).

(** ** Example states *)

Definition example_options : options :=
  {| opt_callTimeout := Some 50; opt_pingInterval := None; opt_reconnectTimeout := None |}.

(** A socket connection right after construction at time 1000: socket 0
    is being opened, promise 1 is the operation in flight. *)
Definition connecting : World := create "wss://example.com/api" example_options 7 ∅ 1000.

(** The same connection once the socket has opened. *)
Definition established : World := run 4 parse stringify [SocketOpened 0%nat] connecting.

(** A call of chat/send was made (call id 1, promise 2); it is now 1060. *)
Definition calling : World :=
  run 4 parse stringify [UserCall "chat" None "send" None; Tick 1060] established.

(** The same connection at 1060, the socket still not open. *)
Definition stalled : World := run 4 parse stringify [Tick 1060] connecting.

(** The reply to call 1, a reply with the id 0, and the init packet of
    stream 1, as texts. *)
Definition reply : string :=
  stringify (JObj [("callback", JNum (Int 1)); ("chat/send", JStr "ok")]).

Definition zero_reply : string :=
  stringify (JObj [("callback", JNum (Int 0)); ("chat/send", JStr "ok")]).

Definition stream_init : string := stringify (init_packet 1 "f" 3).

(** The peer has opened stream 1 towards the client. *)
Definition receiving : World :=
  run 4 parse stringify [SocketMessage 0%nat (TextData stream_init)] established.

(** A writable stream as the streams tests build it. *)
Definition example_writable : MetaWritable :=
  {| w_id := 5; w_name := "file.txt"; w_size := 10; w_finalized := false |}.

(** A connection of the HTTP binding. *)
Definition http_world : World := create "https://example.com/api" example_options 8 ∅ 1000.

(** ** Further observations *)

(** The value is a JSON object. *)
Definition is_object (v : json) : bool :=
  match v with
  | JObj _ => true
  | _ => false
  end.

(** The tag of a packet is one of the three the client acts on. *)
Definition is_tag (callType : option string) : bool :=
  is_type callType "callback" || is_type callType "event" || is_type callType "stream".

(** What was handed to the wire, in order. *)
Definition wire (e : effect) : option wire_unit :=
  match e with
  | SocketSend _ data | Fetch _ data => Some data
  | _ => None
  end.

Definition sent (t : list effect) : list wire_unit := omap wire t.

(** What a reply settles a call with: [reject(new MetacomError(error))]
    when the packet has a truthy [error], [resolve(args)] otherwise. *)
Definition settlement (promise : nat) (packet : json) (args : option json) : effect :=
  let err := js_get packet "error" in
  if truthy err
  then Reject promise (MetacomError (err ≫= fun e => js_get e "message")
                                    (err ≫= fun e => js_get e "code"))
  else Resolve promise args.

(** A call packet of the peer, an event packet and a failed reply, as
    texts. *)
Definition call_text : string :=
  stringify (JObj [("call", JNum (Int 1)); ("chat/send", JObj [])]).


Definition error_reply : string :=
  stringify (JObj [("callback", JNum (Int 1));
                   ("error", JObj [("message", JStr "no"); ("code", JNum (Int 404))])]).

Definition stream_end : string :=
  stringify (JObj [("stream", JNum (Int 1)); ("status", JStr "end")]).




(** The events whose handlers neither run a call stub nor load an
    interface. *)
Definition plain (e : event) : bool :=
  match e with
  | SocketOpened _ | UserCall _ _ _ _ | UserLoaded _ _ => false
  | _ => true
  end.

(** What the constructor fixes: the address, the class, the three
    timeouts and the identity of the connection. *)
Definition settings (w : World) : string * transport_kind * Z * Z * Z * nat :=
  (url (this w), kind (this w), callTimeout (this w), pingInterval (this w),
   reconnectTimeout (this w), self w).

(** The keys of the registry are call ids, and the ids in the registry
    and of the suspended stubs start at 1. *)
Definition numbered (w : World) : Prop :=
  0 <= callId (this w) /\
  (forall k, is_Some (calls (this w) !! k) -> exists z, k = num z /\ 1 <= z) /\
  Forall (fun x => 1 <= pc_callId (snd x)) (parked w).

(** A reply to call 5, which was never made, and a reply whose id is the
    string 1. *)
Definition stray_reply : string :=
  stringify (JObj [("callback", JNum (Int 5)); ("chat/send", JStr "ok")]).

Definition string_reply : string :=
  stringify (JObj [("callback", JStr "1"); ("chat/send", JStr "ok")]).

Definition is_interval (e : effect) : bool :=
  match e with
  | SetInterval _ _ => true
  | _ => false
  end.

(** How many intervals were set. *)
Definition intervals (t : list effect) : nat := length (List.filter is_interval t).

(** The effects that only the socket binding has. *)
Definition uses_socket (e : effect) : bool :=
  match e with
  | NewWebSocket _ _ | SocketSend _ _ | SocketClosing _ | SetInterval _ _
  | SetTimeout Reconnect _ => true
  | _ => false
  end.

(** A connection of the HTTP binding, created beside the connections
    [others]: it has no socket, no connect operation in flight and no
    socket listener, the registered connections are the same as ever, and
    it did nothing that needs a socket. *)
Definition fetch_only (others : gset nat) (w : World) : Prop :=
  kind (this w) = Http /\
  socket (this w) = None /\
  opening (this w) = None /\
  listeners w = ∅ /\
  connections w = others /\
  Forall (fun e => uses_socket e = false) (trace w).

(** A connection of the socket binding is registered exactly while it is
    active. *)
Definition registered_while_active (w : World) : Prop :=
  kind (this w) = Ws /\ (active (this w) = true <-> self w ∈ connections w).

(** While a connect operation is in flight the connection is not
    connected; the HTTP binding has none in flight. *)
Definition connecting_or_connected (w : World) : Prop :=
  (kind (this w) = Http -> opening (this w) = None) /\
  (is_Some (opening (this w)) -> connected (this w) = false).

(** The second key of the packet of a call: the interface, with the
    version after a dot when one is given, a slash and the method. *)
Definition call_target (iname : string) (ver : option string) (methodName : string) : string :=
  match ver with
  | Some v => if is_empty v then iname else iname +:+ "." +:+ v
  | None => iname
  end +:+ "/" +:+ methodName.

(** The packet of a call; the arguments default to the empty object. *)
Definition call_packet (callId : Z) (target : string) (args : option json) : json :=
  JObj [("call", JNum (Int callId)); (target, default (JObj []) args)].

(** A call of the user: interface, version, method and arguments. *)
Definition request : Type := string * option string * string * option json.

Definition call_event (r : request) : event :=
  let '(iname, ver, methodName, args) := r in UserCall iname ver methodName args.

(** The packets of the calls [rs], the first of which gets the id
    [first]. *)
Fixpoint call_packets (first : Z) (rs : list request) : list json :=
  match rs with
  | [] => []
  | (iname, ver, methodName, args) :: rest =>
      call_packet first (call_target iname ver methodName) args
        :: call_packets (first + 1) rest
  end.

(** The stubs of the calls [rs] suspended at [await this.opening], the
    promise being [p]. *)
Fixpoint suspended (p : nat) (first : Z) (rs : list request) : list (nat * parked_call) :=
  match rs with
  | [] => []
  | (iname, ver, methodName, args) :: rest =>
      (p, {| pc_callId := first; pc_target := call_target iname ver methodName;
             pc_args := default (JObj []) args; pc_stage := AwaitOpening |})
        :: suspended p (first + 1) rest
  end.

(** Two calls made before the socket has opened. *)
Definition queued : World :=
  run 4 parse stringify
    [UserCall "chat" None "send" None; UserCall "chat" (Some "2") "list" (Some (JArr []))]
    connecting.

(** The connection after [close()], the close event of its socket not
    yet delivered; and after that event. *)
Definition closing : World := run 4 parse stringify [UserClose] established.

Definition closed : World := run 4 parse stringify [SocketClosed 0%nat] closing.

(** After that the user makes a call, which opens socket 2, and that
    socket closes as well. *)
Definition recalled : World :=
  run 4 parse stringify [UserCall "chat" None "send" None; SocketClosed 2%nat] closed.

(** The socket of the established connection was lost. *)
Definition dropped : World := run 4 parse stringify [SocketClosed 0%nat] established.

(** The established connection after 61 seconds without traffic. *)
Definition idle : World := run 4 parse stringify [Tick 62000] established.

(** The ping timer finds the connection active, idle for longer than
    [pingInterval], and able to send. *)
Definition heartbeat_due (w : World) : bool :=
  active (this w)
  && (pingInterval (this w) <? clock w - lastActivity (this w))
  && match kind (this w) with
     | Http => true
     | Ws => connected (this w) && bool_decide (is_Some (socket (this w)))
     end.




(** The frames of the chunks [chunks] of the stream [id], and the end
    packet. *)
Definition upload_frames (ID_LENGTH : nat) (JSON_stringify : json -> string) (id : Z)
    (chunks : list bytes) : list wire_unit :=
  ((fun chunk => Binary (Chunk.encode ID_LENGTH id chunk)) <$> chunks)
  ++ [Text (JSON_stringify (JObj [("stream", JNum (Int id)); ("status", JStr "end")]))].

(** A blob of two chunks read without anything happening in between. *)
Definition example_blob : Blob :=
  {| blob_name := None; blob_size := 3;
     blob_reads := [([], [Byte.x01; Byte.x02]); ([], [Byte.x03])];
     blob_done := [] |}.

(** * Properties *)

Module ChunkFacts.
Import Chunk.

Lemma Z_of_byte_of_Z (z : Z) : Z_of_byte (byte_of_Z z) = z mod 256.
Proof.
  unfold Z_of_byte, byte_of_Z.
  assert (Hr : 0 <= z mod 256 < 256) by (apply Z.mod_pos_bound; lia).
  destruct (Byte.of_N (Z.to_N (z mod 256))) as [b|] eqn:Hb.
  - apply Byte.to_of_N in Hb. simpl. rewrite Hb. lia.
  - apply Byte.of_N_None_iff in Hb. lia.
Qed.

Lemma id_value_snoc (bs : bytes) (b : Byte.byte) :
  id_value (bs ++ [b]) = id_value bs * 256 + Z_of_byte b.
Proof. unfold id_value. now rewrite fold_left_app. Qed.

Lemma length_id_bytes (w : nat) (n : Z) : length (id_bytes w n) = w.
Proof.
  revert n. induction w as [|w IH]; intros n; simpl; [done|].
  rewrite length_app, IH. simpl. lia.
Qed.

Lemma id_value_id_bytes (w : nat) (n : Z) :
  id_value (id_bytes w n) = n mod 256 ^ Z.of_nat w.
Proof.
  revert n. induction w as [|w IH]; intros n.
  - simpl. now rewrite Z.mod_1_r.
  - cbn [id_bytes]. rewrite id_value_snoc, IH, Z_of_byte_of_Z.
    rewrite Nat2Z.inj_succ, Z.pow_succ_r by lia.
    rewrite Z.rem_mul_r by lia. lia.
Qed.

(** Whatever the id, decoding gives back its residue modulo the range of
    the header field. *)
Lemma decode_encode (ID_LENGTH : nat) (id : Z) (data : bytes) :
  decode ID_LENGTH (encode ID_LENGTH id data)
    = Ok (Frame (id mod 256 ^ Z.of_nat ID_LENGTH) data).
Proof.
  unfold decode, encode.
  rewrite length_app, length_id_bytes.
  destruct (Nat.ltb_spec (ID_LENGTH + length data) ID_LENGTH) as [Hlt|_]; [lia|].
  rewrite take_app_length' by (symmetry; apply length_id_bytes).
  rewrite drop_app_length' by (symmetry; apply length_id_bytes).
  rewrite id_value_id_bytes. reflexivity.
Qed.

(** C1. Decoding an encoded frame gives back the stream id and the
    payload, for every id that fits the header field and every payload
    (the empty one included). *)
Theorem frame_round_trip (ID_LENGTH : nat) (id : Z) (data : bytes) :
  valid_id ID_LENGTH id ->
  decode ID_LENGTH (encode ID_LENGTH id data) = Ok (Frame id data).
Proof.
  intros Hid. rewrite decode_encode.
  unfold valid_id in Hid. rewrite Z.mod_small by exact Hid.
  reflexivity.
Qed.

Lemma frame_round_trip_witness :
  valid_id 4 5 /\ decode 4 (encode 4 5 []) = Ok (Frame 5 []).
Proof.
  assert (H : valid_id 4 5) by (unfold valid_id; simpl; lia).
  split; [exact H | exact (frame_round_trip 4 5 [] H)].
Defined.

End ChunkFacts.

(** ** The writable stream *)

(** C6. On a stream that is not finalized, [write] hands the transport
    one binary unit and returns true; the unit decodes to the id of the
    stream and the chunk as it was given. With the buffer of the streams
    tests as the transport, the frame is the one unit added. *)
Theorem write_sends_one_frame (ID_LENGTH : nat) (w : MetaWritable) (chunk : bytes) :
  w_finalized w = false ->
  Chunk.valid_id ID_LENGTH (w_id w) ->
  exists frame,
    Chunk.decode ID_LENGTH frame = Ok (Chunk.Frame (w_id w) chunk) /\
    (forall (T : Type) (transport : Transport T),
       Writable.write ID_LENGTH w chunk = (send (Binary frame);; ret true)) /\
    (forall buffer : list wire_unit,
       Writable.write (Transport0 := writeBuffer_send) ID_LENGTH w chunk buffer =
         (Ok true, buffer ++ [Binary frame])).
Proof.
  intros Hopen Hid. exists (Chunk.encode ID_LENGTH (w_id w) chunk).
  split.
  - rewrite ChunkFacts.decode_encode.
    unfold Chunk.valid_id in Hid. rewrite Z.mod_small by exact Hid. reflexivity.
  - unfold Writable.write. rewrite Hopen. split; reflexivity.
Qed.

Lemma write_sends_one_frame_witness :
  exists frame,
    Chunk.decode 4 frame = Ok (Chunk.Frame 5 [Byte.x00; Byte.x01; Byte.x02; Byte.x03]) /\
    Writable.write (Transport0 := writeBuffer_send) 4 example_writable
        [Byte.x00; Byte.x01; Byte.x02; Byte.x03] [] =
      (Ok true, [Binary frame]).
Proof.
  assert (Hid : Chunk.valid_id 4 (w_id example_writable))
    by (unfold Chunk.valid_id; simpl; lia).
  destruct (write_sends_one_frame 4 example_writable
              [Byte.x00; Byte.x01; Byte.x02; Byte.x03] eq_refl Hid)
    as (frame & Hdec & _ & Hbuf).
  exists frame. split; [exact Hdec | exact (Hbuf [])].
Defined.


(** Symbolic execution of a handler: unfold the monad and the methods,
    then split on whatever the code branches on. *)
Ltac break_match :=
  match goal with
  | |- context [match ?x with _ => _ end] =>
      lazymatch x with
      | context [match _ with _ => _ end] => fail
      | _ => destruct x eqn:?
      end
  end.

Ltac unfold_monad :=
  unfold detached, emit, log, modify, logged, touched, update, read, now, inspect, alloc,
    lift, try, bind, ret, throw in *.

Ltac unfold_methods :=
  unfold handle, on_socket, on_socket_message, on_socket_close, on_socket_error,
    on_socket_open, on_reconnect_timer, on_call_timer, on_ping_timer, on_online,
    message, dispatch, on_callback, on_event, on_stream, binary,
    resume, scaffold, call_connected, executor, park, on_any, load_reply,
    getStream, createStream, Writable.new, send, Metacom_transport,
    open, close, Metacom_send,
    WebsocketTransport_open, WebsocketTransport_close, WebsocketTransport_send,
    HttpTransport_open, HttpTransport_close, HttpTransport_send in *.

Ltac exec := unfold_methods; unfold_monad; cbn; repeat (break_match; cbn).

(** ** Invariants of computations *)

Lemma inv_bind {A B : Type} (P : World -> Prop) (m : M World A) (k : A -> M World B) :
  inv P m -> (forall a, inv P (k a)) -> inv P (bind m k).
Proof.
  intros Hm Hk w HP. unfold bind. specialize (Hm w HP).
  destruct (m w) as [[a|e] w']; cbn in *; [apply Hk|]; assumption.
Qed.

Lemma inv_ret {A : Type} (P : World -> Prop) (a : A) : inv P (ret a).
Proof. intros w HP. exact HP. Qed.

Lemma inv_read {A B : Type} (P : World -> Prop) (f : Metacom -> A) (k : A -> M World B) :
  (forall w, P w -> P (snd (k (f (this w)) w))) -> inv P (bind (read f) k).
Proof. intros H w HP. apply H, HP. Qed.

Lemma inv_apply {A : Type} (P : World -> Prop) (m : M World A) (w : World) :
  inv P m -> P w -> P (snd (m w)).
Proof. intros H. apply H. Qed.

Lemma bind_inspect_eq {A B : Type} (f : World -> A) (k : A -> M World B) (w : World) :
  bind (inspect f) k w = k (f w) w.
Proof. reflexivity. Qed.

Lemma bind_update_eq {B : Type} (f : Metacom -> Metacom) (k : unit -> M World B) (w : World) :
  bind (update f) k w = k tt (set_this (f (this w)) w).
Proof. reflexivity. Qed.

(** Continue with an invariant already proved for the computation that
    comes next. *)
Ltac by_inv :=
  match goal with
  | HP : ?P ?w |- ?P (snd (?m ?w)) => apply (inv_apply P m w); [|exact HP]
  end.

Section ConnectionFacts.
Variable ID_LENGTH : nat.
Variable JSON_parse : string -> option json.
Variable JSON_stringify : json -> string.

Local Abbreviation handle := (handle ID_LENGTH JSON_parse JSON_stringify).
Local Abbreviation step := (step ID_LENGTH JSON_parse JSON_stringify).
Local Abbreviation run := (run ID_LENGTH JSON_parse JSON_stringify).

(** C5. While a connect operation is in flight, [open()] on the socket
    binding gives back that operation and does nothing else: no socket is
    created and no field changes. Once connected it resolves at once,
    again without doing anything. [open()] on the HTTP binding resolves at
    once whatever the state, and creates no transport connection. *)
Theorem open_idempotent (w : World) :
  (forall p, kind (this w) = Ws -> opening (this w) = Some p ->
     open w = (Ok (Pending p), logged [Called "open"] w)) /\
  (kind (this w) = Ws -> opening (this w) = None -> connected (this w) = true ->
     open w = (Ok Resolved, logged [Called "open"] w)) /\
  (kind (this w) = Http ->
     fst (open w) = Ok Resolved /\
     sockets_created (trace (snd (open w))) = sockets_created (trace w)).
Proof.
  unfold open, WebsocketTransport_open, HttpTransport_open.
  unfold_monad.
  split; [|split].
  - intros p Hk Hp. cbn. rewrite Hk. cbn. rewrite Hp. reflexivity.
  - intros Hk Hp Hc. cbn. rewrite Hk. cbn. rewrite Hp, Hc. reflexivity.
  - intros Hk. cbn. rewrite Hk. cbn. split; [reflexivity|].
    unfold sockets_created. rewrite <- !app_assoc, List.filter_app. cbn.
    now rewrite app_nil_r.
Qed.

(** C9 as amended. The HTTP binding records the time of every send. The
    socket binding does so when the connection is connected; when it is
    not, [send] returns at its guard and changes nothing. *)
Theorem send_lastActivity (w : World) (data : wire_unit) :
  (kind (this w) = Http \/ connected (this w) = true ->
     lastActivity (this (snd (Metacom_send data w))) = clock w) /\
  (kind (this w) = Ws -> connected (this w) = false ->
     Metacom_send data w = (Ok tt, w)).
Proof.
  unfold Metacom_send, WebsocketTransport_send, HttpTransport_send,
    log, update, read, now, bind, ret, throw.
  split.
  - intros H. cbn. destruct (kind (this w)) eqn:Hk; cbn.
    + destruct H as [H|H]; [discriminate|]. rewrite H. cbn.
      destruct (socket (this w)); reflexivity.
    + reflexivity.
  - intros Hk Hc. cbn. rewrite Hk. cbn. rewrite Hc. reflexivity.
Qed.







Lemma map_get_key {V : Type} (m : gmap key V) (v : option json) (x : V) :
  map_get m v = Some x -> exists k, v ≫= prim_key = Some k /\ m !! k = Some x.
Proof.
  unfold map_get. destruct v as [j|]; [|discriminate]. cbn.
  destruct (prim_key j) as [k|]; [|discriminate]. eauto.
Qed.




Lemma filter_partition {A : Type} (f : A -> bool) (l : list A) :
  List.filter f l ++ List.filter (fun x => negb (f x)) l ≡ₚ l.
Proof.
  induction l as [|x l IH]; cbn; [reflexivity|].
  destruct (f x); cbn.
  - now rewrite IH.
  - rewrite <- Permutation_middle. now rewrite IH.
Qed.

(** *** Invariants of the call stubs

    An invariant [P] of the pieces of a call stub is an invariant of the
    stub, of a resumed stub, and of the settling of an [opening] promise.
    [good] tells the call ids [P] can live with. *)
Section CallChain.
Variable P : World -> Prop.
Variable good : Z -> Prop.
Hypothesis P_executor : forall i t a, good i -> inv P (executor JSON_stringify i t a).
Hypothesis P_open : forall w, P w -> connected (this w) = false -> P (snd (open w)).
Hypothesis P_park : forall p pc w,
  good (pc_callId pc) -> P w -> P (set_parked (parked w ++ [(p, pc)]) w).
Hypothesis P_next : forall w,
  P w ->
  P (set_this (set_callId (callId (this w) + 1) (this w)) w) /\
  good (callId (this w) + 1).
Hypothesis P_resolve : forall p w, P w -> P (logged [Resolve p None] w).
Hypothesis P_unpark : forall f w, P w -> P (set_parked (List.filter f (parked w)) w).
Hypothesis P_parked : forall w, P w -> Forall (fun x => good (pc_callId (snd x))) (parked w).

Lemma inv_call_connected (i : Z) (t : string) (a : json) :
  good i -> inv P (call_connected JSON_stringify i t a).
Proof.
  intros Hi. unfold call_connected. apply inv_read. intros w HP.
  destruct (connected (id (this w))) eqn:Hc.
  - by_inv. apply inv_bind; [apply P_executor, Hi | intros; apply inv_ret].
  - unfold bind at 1. pose proof (P_open w HP Hc) as HP'.
    destruct (open w) as [[[p|]|e] w']; cbn [snd] in HP'.
    + cbn. apply P_park; [exact Hi | exact HP'].
    + by_inv. apply inv_bind; [apply P_executor, Hi | intros; apply inv_ret].
    + exact HP'.
Qed.

Lemma inv_resume (pc : parked_call) :
  good (pc_callId pc) -> inv P (resume JSON_stringify pc).
Proof.
  intros Hi. unfold resume. destruct (pc_stage pc).
  - apply inv_bind; [apply inv_call_connected, Hi | intros; apply inv_ret].
  - apply inv_bind; [apply P_executor, Hi | intros; apply inv_ret].
Qed.

Lemma inv_resume_all (pcs : list parked_call) :
  Forall (fun pc => good (pc_callId pc)) pcs ->
  inv P (resume_all JSON_stringify pcs).
Proof.
  induction 1 as [|pc pcs Hpc _ IH]; cbn [resume_all].
  - apply inv_ret.
  - apply inv_bind; [apply inv_resume, Hpc | intros _; exact IH].
Qed.

Lemma inv_settle (p : nat) : inv P (settle JSON_stringify p).
Proof.
  intros w HP. unfold settle.
  pose proof (P_resolve p w HP) as HP1.
  pose proof (P_parked _ HP1) as Hgood.
  pose proof (P_unpark (fun x => negb (Nat.eqb (fst x) p)) _ HP1) as HP2.
  unfold bind at 1. unfold log at 1. cbn beta iota. fold (logged [Resolve p None] w).
  unfold bind at 1. cbn beta iota. unfold bind at 1. cbn beta iota.
  apply inv_resume_all; [|exact HP2].
  apply Forall_fmap, Forall_forall. intros x Hx.
  rewrite filter_partition in Hx.
  rewrite Forall_forall in Hgood. apply Hgood.
  apply list_elem_of_In in Hx. apply List.filter_In in Hx.
  apply list_elem_of_In, Hx.
Qed.

Lemma inv_scaffold (iname : string) (ver : option string) (methodName : string)
    (args : option json) :
  inv P (scaffold JSON_stringify iname ver methodName args).
Proof.
  unfold scaffold. apply inv_read. intros w HP. rewrite bind_update_eq.
  destruct (P_next w HP) as [HP' Hgood]. cbn [id] in *.
  destruct (opening (this w)).
  - by_inv. apply inv_bind; [|intros; apply inv_ret].
    intros w1 HP1. apply P_park; [exact Hgood | exact HP1].
  - by_inv. apply inv_bind; [apply inv_call_connected, Hgood | intros; apply inv_ret].
Qed.

Lemma inv_on_socket_open (p : nat) :
  (forall v w, P w -> P (set_this (set_opening v (this w)) w)) ->
  (forall w, P w -> P (set_this (set_connected true (this w)) w)) ->
  (forall w, P w -> P (logged [Emit "open"] w)) ->
  inv P (on_socket_open JSON_stringify p).
Proof.
  intros Ho Hc He. unfold on_socket_open.
  apply inv_bind; [intros w HP; apply Ho, HP | intros _].
  apply inv_bind; [intros w HP; apply Hc, HP | intros _].
  apply inv_bind; [intros w HP; apply He, HP | intros _].
  apply inv_settle.
Qed.

End CallChain.

Lemma inv_load_each (P : World -> Prop) (introspection : json)
    (available interfaces : list string) :
  (forall a w, P w -> P (set_this (set_api a (this w)) w)) ->
  inv P (load_each introspection available interfaces).
Proof.
  intros Hapi. induction interfaces as [|i rest IH]; cbn [load_each].
  - apply inv_ret.
  - apply inv_bind; [|intros _; exact IH].
    intros w HP. unfold_monad.
    repeat (break_match; cbn); try exact HP.
    apply Hapi, HP.
Qed.

(** *** The counters never go down *)

Lemma executor_counters (c e i : Z) (t : string) (a : json) :
  inv (counters_from c e) (executor JSON_stringify i t a).
Proof. intros w [Hc He]. unfold counters_from. exec; split; assumption. Qed.

Lemma open_counters (c e : Z) : inv (counters_from c e) open.
Proof. intros w [Hc He]. unfold counters_from. exec; split; assumption. Qed.

Lemma handle_counters (c e : Z) (ev : event) : inv (counters_from c e) (handle ev).
Proof.
  pose (good := fun _ : Z => True).
  assert (Hnext : forall w, counters_from c e w ->
            counters_from c e (set_this (set_callId (callId (this w) + 1) (this w)) w)
            /\ good (callId (this w) + 1)).
  { intros w [Hc He]. repeat split; cbn; [lia | assumption]. }
  destruct ev;
    lazymatch goal with
    | |- inv _ (handle (SocketOpened ?sock)) =>
        intros w HP; unfold handle; rewrite bind_inspect_eq;
        destruct (listeners w !! sock); [|exact HP];
        revert w HP;
        apply (inv_on_socket_open _ good); auto using executor_counters;
        try (intros; apply open_counters; assumption);
        intros; apply Forall_forall; intros; exact I
    | |- inv _ (handle (UserCall _ _ _ _)) =>
        unfold handle;
        apply inv_bind; [|intros; apply inv_ret];
        apply (inv_scaffold _ good); auto using executor_counters;
        intros; apply open_counters; assumption
    | |- inv _ (handle (UserLoaded _ _)) =>
        unfold handle, load_reply;
        apply inv_bind; [intros w HP; unfold_monad; exact HP | intros available];
        apply inv_load_each; auto
    | |- _ => intros w [Hc He]; unfold counters_from; exec; split; lia
    end.
Qed.

Lemma inv_run (P : World -> Prop) (allowed : event -> bool) (es : list event) (w : World) :
  (forall ev, allowed ev = true -> inv P (handle ev)) ->
  forallb allowed es = true -> P w -> P (run es w).
Proof.
  intros Hstep. revert w. unfold run.
  induction es as [|ev es IH]; intros w Hes HP; cbn in *; [exact HP|].
  apply andb_prop in Hes as [Hev Hes].
  apply IH; [exact Hes|]. apply Hstep; assumption.
Qed.

(** What [message] does with a packet whose id field is falsy. *)
Lemma message_falsy_id (w : World) (data : string) (packet : json) (keys : list string) :
  String.eqb data "{}" = false ->
  JSON_parse data = Some packet ->
  Object_keys packet = Ok keys ->
  truthy (js_get_opt packet (keys !! 0%nat)) = false ->
  message JSON_parse data w = (Ok tt, touched w).
Proof.
  intros H0 H1 H2 H3. unfold message, dispatch. unfold_monad. cbn.
  rewrite H0, H1. cbn. rewrite H2. cbn. rewrite H3. reflexivity.
Qed.

Lemma executor_returns (i : Z) (t : string) (a : json) (w : World) :
  exists w', executor JSON_stringify i t a w = (Ok (fresh w), w') /\
             callId (this w') = callId (this w).
Proof. exec; eexists; split; reflexivity. Qed.

Lemma open_returns (w : World) :
  exists r w', open w = (Ok r, w') /\ callId (this w') = callId (this w).
Proof. exec; do 2 eexists; split; reflexivity. Qed.

Lemma call_connected_returns (i : Z) (t : string) (a : json) (w : World) :
  exists r w', call_connected JSON_stringify i t a w = (Ok r, w') /\
               callId (this w') = callId (this w).
Proof.
  unfold call_connected. unfold bind at 1. unfold read at 1. cbn beta iota.
  destruct (connected (id (this w))).
  - unfold bind. destruct (executor_returns i t a w) as (w' & -> & Hc).
    cbn. eauto.
  - unfold bind at 1. destruct (open_returns w) as (r & w' & -> & Hc).
    destruct r as [p|].
    + cbn. eauto.
    + unfold bind. destruct (executor_returns i t a w') as (w'' & -> & Hc').
      cbn. do 2 eexists. split; [reflexivity | congruence].
Qed.

Lemma scaffold_returns (w : World) (iname : string) (ver : option string)
    (methodName : string) (args : option json) :
  exists promise w',
    scaffold JSON_stringify iname ver methodName args w
      = (Ok (callId (this w) + 1, promise), w') /\
    callId (this w') = callId (this w) + 1.
Proof.
  unfold scaffold. unfold bind at 1. unfold read at 1. cbn beta iota.
  rewrite bind_update_eq. cbn [id].
  destruct (opening (this w)); [do 2 eexists; split; reflexivity|].
  unfold bind at 1.
  match goal with
  | |- context [call_connected ?s ?i ?t ?a ?w'] =>
      destruct (call_connected_returns i t a w') as (r & w'' & -> & Hc)
  end.
  do 2 eexists; split; [reflexivity | exact Hc].
Qed.

(** C4 as amended. Both counters start at zero, a call or an event sent
    takes the counter plus one, and no event ever lowers a counter: ids are
    positive and strictly increasing. A packet whose id field is falsy is
    dropped before any lookup: the registry, the stream map, the streams
    and the effects stay as they are, and the only change of state is the
    time of receipt in [lastActivity]. *)
Theorem id_validity :
  (forall url o me others time,
     callId (this (create url o me others time)) = 0 /\
     eventId (this (create url o me others time)) = 0) /\
  (forall w iname ver methodName args,
     exists promise,
       fst (scaffold JSON_stringify iname ver methodName args w)
         = Ok (callId (this w) + 1, promise) /\
       callId (this (snd (scaffold JSON_stringify iname ver methodName args w)))
         = callId (this w) + 1) /\
  (forall w interfaceName eventName data,
     on_any JSON_stringify interfaceName eventName data w =
       Metacom_send
         (Text (JSON_stringify
            (JObj (("event", JNum (Int (eventId (this w) + 1))) ::
                   match data with
                   | Some d => [(interfaceName +:+ "/" +:+ eventName, d)]
                   | None => []
                   end))))
         (set_this (set_eventId (eventId (this w) + 1) (this w)) w)) /\
  (forall ev w,
     callId (this w) <= callId (this (step ev w)) /\
     eventId (this w) <= eventId (this (step ev w))) /\
  (forall w data packet keys,
     String.eqb data "{}" = false ->
     JSON_parse data = Some packet ->
     Object_keys packet = Ok keys ->
     truthy (js_get_opt packet (keys !! 0%nat)) = false ->
     message JSON_parse data w = (Ok tt, touched w)).
Proof.
  repeat apply conj.
  - intros url o me others time. unfold create.
    destruct (String.prefix "ws" url); split; reflexivity.
  - intros w iname ver methodName args.
    destruct (scaffold_returns w iname ver methodName args) as (q & w' & -> & Hc).
    exists q. split; [reflexivity | exact Hc].
  - intros w interfaceName eventName data. reflexivity.
  - intros ev w. apply (handle_counters (callId (this w)) (eventId (this w)) ev w).
    split; lia.
  - intros w data packet keys. apply message_falsy_id.
Qed.

(** *** Where the entries of the stream map come from *)

Lemma executor_streams (m : gmap key nat) (i : Z) (t : string) (a : json) :
  inv (streams_are m) (executor JSON_stringify i t a).
Proof. intros w H. unfold streams_are in *. exec; assumption. Qed.

Lemma open_streams (m : gmap key nat) : inv (streams_are m) open.
Proof. intros w H. unfold streams_are in *. exec; assumption. Qed.

Lemma handle_streams (m : gmap key nat) (ev : event) :
  inbound_text ev = false -> inv (streams_are m) (handle ev).
Proof.
  pose (good := fun _ : Z => True).
  intros Hev.
  destruct ev; try discriminate Hev;
    lazymatch goal with
    | |- inv _ (handle (SocketOpened ?sock)) =>
        intros w HP; unfold handle; rewrite bind_inspect_eq;
        destruct (listeners w !! sock); [|exact HP];
        revert w HP;
        apply (inv_on_socket_open _ good); auto using executor_streams;
        try (intros; apply open_streams; assumption);
        try (intros; apply Forall_forall; intros; exact I)
    | |- inv _ (handle (UserCall _ _ _ _)) =>
        unfold handle;
        apply inv_bind; [|intros; apply inv_ret];
        apply (inv_scaffold _ good); auto using executor_streams;
        try (intros; apply open_streams; assumption);
        try (intros w H; split; [exact H | exact I])
    | |- inv _ (handle (UserLoaded _ _)) =>
        unfold handle, load_reply;
        apply inv_bind; [intros w HP; unfold_monad; exact HP | intros available];
        apply inv_load_each; auto
    | |- inv _ (handle (SocketMessage _ ?d)) =>
        destruct d; [discriminate Hev|];
        intros w H; unfold streams_are in *; exec; assumption
    | |- _ => intros w H; unfold streams_are in *; exec; assumption
    end.
Qed.

Lemma message_provenance (data : string) (w : World) (k : key) (a : nat) :
  streams (this (snd (detached (message JSON_parse data) w))) !! k = Some a ->
  streams (this w) !! k = Some a \/
  exists name size,
    heap (snd (detached (message JSON_parse data) w)) !! a = Some (Readable.new k name size).
Proof.
  exec; intros H; auto;
    try (apply lookup_delete_Some in H as [_ H]; auto; fail);
    match type of H with
    | <[?k1 := ?a1]> _ !! _ = _ =>
        destruct (decide (k1 = k)) as [<-|Hne];
          [rewrite lookup_insert_eq in H; injection H as <-;
           right; do 2 eexists; apply lookup_insert_eq
          |rewrite lookup_insert_ne in H by exact Hne; auto]
    end.
Qed.

Lemma createStream_unfold (name : string) (size : Z) (w : World) :
  createStream JSON_stringify name size w =
    match Metacom_send
            (Text (JSON_stringify (init_packet (streamId (this w) + 1) name size)))
            (set_this (set_streamId (streamId (this w) + 1) (this w)) w) with
    | (Ok _, w') =>
        (Ok {| w_id := streamId (this w) + 1; w_name := name; w_size := size;
               w_finalized := false |}, w')
    | (Throw e, w') => (Throw e, w')
    end.
Proof. reflexivity. Qed.

Lemma send_frame (data : wire_unit) (w : World) :
  streams (this (snd (Metacom_send data w))) = streams (this w) /\
  heap (snd (Metacom_send data w)) = heap w.
Proof. exec; split; reflexivity. Qed.

(** C10 as amended. An entry of the stream map that an event adds is a
    readable just built from an inbound text unit; [createStream] adds
    none. So for the id [createStream] returns, [getStream] gives what the
    map held for that id before: when the peer has not opened a stream
    under the same id, the lookup error, and a frame with that id is
    dropped with a warning. *)
Theorem createStream_not_registered :
  (forall ev w k a,
     streams (this (step ev w)) !! k = Some a ->
     streams (this w) !! k = Some a \/
     inbound_text ev = true /\
     exists name size, heap (step ev w) !! a = Some (Readable.new k name size)) /\
  (forall w name size writable w',
     createStream JSON_stringify name size w = (Ok writable, w') ->
     w_id writable = streamId (this w) + 1 /\
     streams (this w') = streams (this w) /\
     heap w' = heap w /\
     (streams (this w) !! num (w_id writable) = None ->
        getStream (Some (JNum (Int (w_id writable)))) w' =
          (Throw (StreamNotInitialized (Some (JNum (Int (w_id writable))))), w') /\
        forall blob chunk,
          Chunk.decode ID_LENGTH blob = Ok (Chunk.Frame (w_id writable) chunk) ->
          binary ID_LENGTH blob w' =
            (Ok tt,
             logged [ConsoleWarn (StreamNotInitialized (Some (JNum (Int (w_id writable)))))]
               w'))).
Proof.
  split.
  - intros ev w k a H. destruct (inbound_text ev) eqn:Hev.
    + assert (Hm : exists data, step ev w = snd (detached (message JSON_parse data) w)
                                \/ step ev w = w).
      { destruct ev; try discriminate Hev.
        - destruct data as [text|]; [|discriminate Hev]. exists text.
          unfold step, handle, on_socket, on_socket_message.
          rewrite bind_inspect_eq. destruct (bool_decide _); auto.
        - exists text. left. reflexivity. }
      destruct Hm as [data [Hm|Hm]]; rewrite Hm in *; [|auto].
      destruct (message_provenance data w k a H) as [?|?]; auto.
    + left. rewrite <- H. symmetry. f_equal.
      apply (handle_streams (streams (this w)) ev Hev w). reflexivity.
  - intros w name size writable w' H. rewrite createStream_unfold in H.
    match type of H with
    | context [Metacom_send ?d ?w1] =>
        destruct (send_frame d w1) as [Hs Hh];
        destruct (Metacom_send d w1) as [[[]|e] w2]; [|discriminate H]
    end.
    injection H as <- <-. cbn in *.
    repeat split; auto.
    + unfold getStream. unfold_monad. cbn. rewrite Hs. cbn.
      unfold num in *. rewrite H. reflexivity.
    + intros blob chunk Hdec. unfold binary. unfold_monad.
      rewrite Hdec. cbn. rewrite Hs. cbn. unfold num in *. rewrite H. reflexivity.
Qed.

(** *** After [close()] only the user reopens the connection *)

Lemma opens_snoc (t : list effect) (e : effect) :
  opens (t ++ [e]) = (opens t + if is_open_call e then 1 else 0)%nat.
Proof.
  unfold opens. rewrite List.filter_app, length_app. cbn.
  destruct (is_open_call e); reflexivity.
Qed.

Ltac count_opens :=
  repeat (rewrite opens_snoc; cbn [is_open_call String.eqb Ascii.eqb Bool.eqb]);
  rewrite ?Nat.add_0_r; try assumption; try reflexivity; try lia.

Ltac solve_quiet :=
  cbn in *; try congruence; try contradiction;
  try match goal with
      | H : bool_decide _ = true |- _ => apply bool_decide_eq_true in H; contradiction
      end;
  try match goal with
      | H : negb ?b = true, H' : ?b = true |- _ => rewrite H' in H; discriminate H
      end;
  repeat split; try assumption; try congruence; count_opens.

Lemma executor_quiet (n : nat) (i : Z) (t : string) (a : json) :
  inv (quiet_connected n) (executor JSON_stringify i t a).
Proof.
  intros w [(Ha & Hs & Ho) Hc]. unfold quiet_connected, quiet.
  exec; solve_quiet.
Qed.

Lemma on_socket_open_quiet (n : nat) (p : nat) :
  inv (quiet n) (on_socket_open JSON_stringify p).
Proof.
  intros w (Ha & Hs & Ho). unfold on_socket_open.
  rewrite bind_update_eq, bind_update_eq.
  unfold bind at 1. unfold emit, log at 1. cbn beta iota.
  pose (good := fun _ : Z => True).
  refine (proj1 (inv_settle (quiet_connected n) good _ _ _ _ _ _ p _ _)).
  - intros; apply executor_quiet.
  - intros w' [_ Hc] Hc'. congruence.
  - intros ? ? w' _ H. exact H.
  - intros ? w' [(? & ? & ?) ?]. unfold quiet_connected, quiet. solve_quiet.
  - intros ? w' H. exact H.
  - intros w' _. apply Forall_forall. intros; exact I.
  - unfold quiet_connected, quiet. solve_quiet.
Qed.

Lemma handle_quiet (n : nat) (ev : event) :
  negb (reopens ev) = true -> inv (quiet n) (handle ev).
Proof.
  intros Hev.
  destruct ev; try discriminate Hev;
    lazymatch goal with
    | |- inv _ (handle (SocketOpened ?sock)) =>
        intros w HP; unfold handle; rewrite bind_inspect_eq;
        destruct (listeners w !! sock); [|exact HP];
        apply on_socket_open_quiet, HP
    | |- _ =>
        intros w (Ha & Hs & Ho); unfold quiet; exec;
        first [ solve [solve_quiet]
              | repeat apply conj; cbn;
                [ reflexivity
                | intros [Hin _]%elem_of_difference; exact (Hs Hin)
                | count_opens ] ]
    end.
Qed.

(** C3. A close event of a socket emits [close] and arms one timer with
    the reconnect delay, entering [open()] not at all. The timer enters
    [open()] once when the connection is still active and not at all when
    it is not. [close()] on a socket connection makes it inactive and takes
    it out of [connections], and from then on [open()] is not entered
    for as long as the user does not open the connection again: no event
    of a socket, timer, reply or window enters it, and no [send],
    [close()], [getStream] or [createStream] of the user either. *)
Theorem reconnect_unless_closed :
  (forall w sock, sock ∈ dom (listeners w) ->
     trace (step (SocketClosed sock) w) =
       trace w ++ [Emit "close"; SetTimeout Reconnect (reconnectTimeout (this w))] /\
     active (this (step (SocketClosed sock) w)) = active (this w)) /\
  (forall w,
     opens (trace (step ReconnectTimer w)) =
       (opens (trace w) + if active (this w) then 1 else 0)%nat) /\
  (forall w es, kind (this w) = Ws ->
     forallb (fun ev => negb (reopens ev)) es = true ->
     active (this (step UserClose w)) = false /\
     (self (step UserClose w) ∉ connections (step UserClose w)) /\
     opens (trace (run es (step UserClose w))) = opens (trace w)).
Proof.
  repeat apply conj.
  - intros w sock Hs. unfold step, handle, on_socket, on_socket_close.
    unfold_monad. cbn. rewrite (bool_decide_eq_true_2 _ Hs). cbn. rewrite <- app_assoc. split; reflexivity.
  - intros w. unfold step. exec; count_opens.
  - intros w es Hk Hes.
    assert (Hq : quiet (opens (trace w)) (step UserClose w)).
    { unfold step, quiet. exec; try discriminate; repeat split; cbn;
        solve [count_opens | apply not_elem_of_difference; right; apply elem_of_singleton_2; reflexivity]. }
    destruct Hq as (Ha & Hs & Ho). repeat split; [exact Ha | exact Hs |].
    apply (inv_run (quiet (opens (trace w))) (fun ev => negb (reopens ev)) es
             (step UserClose w) (handle_quiet _)); [exact Hes|].
    repeat split; assumption.
Qed.

(** *** A call that is over stays over *)

Lemma num_inj (a b : Z) : num a = num b -> a = b.
Proof. unfold num. congruence. Qed.

Ltac solve_settled :=
  cbn in *; repeat split; try assumption; try lia;
  try (rewrite lookup_insert_ne; [assumption | intros ?%num_inj; congruence]);
  try (apply lookup_delete_None; right; assumption).

Lemma executor_settled (id i : Z) (t : string) (a : json) :
  i <> id -> inv (settled id) (executor JSON_stringify i t a).
Proof.
  intros Hi w (Hc & Hn & Hp). unfold settled. exec; solve_settled.
Qed.

Lemma open_settled (id : Z) : inv (settled id) open.
Proof. intros w (Hc & Hn & Hp). unfold settled. exec; solve_settled. Qed.

Lemma Forall_filter_keep {A : Type} (Q : A -> Prop) (f : A -> bool) (l : list A) :
  Forall Q l -> Forall Q (List.filter f l).
Proof.
  rewrite !Forall_forall. intros H x Hx. apply H.
  apply list_elem_of_In in Hx. apply List.filter_In in Hx.
  apply list_elem_of_In, Hx.
Qed.

Lemma handle_settled (id : Z) (ev : event) : inv (settled id) (handle ev).
Proof.
  pose (good := fun i : Z => i <> id).
  assert (Hexec : forall i t a, good i -> inv (settled id) (executor JSON_stringify i t a)).
  { intros i t a Hi. apply executor_settled, Hi. }
  assert (Hopen : forall w, settled id w -> connected (this w) = false ->
                            settled id (snd (open w))).
  { intros w H _. apply open_settled, H. }
  assert (Hpark : forall p pc w, good (pc_callId pc) -> settled id w ->
                    settled id (set_parked (parked w ++ [(p, pc)]) w)).
  { intros p pc w Hg (Hc & Hn & Hp). repeat split; try assumption. cbn.
    apply Forall_app. split; [assumption|]. repeat constructor. exact Hg. }
  assert (Hnext : forall w, settled id w ->
                    settled id (set_this (set_callId (callId (this w) + 1) (this w)) w)
                    /\ good (callId (this w) + 1)).
  { intros w (Hc & Hn & Hp). unfold good. repeat split; cbn; try assumption; lia. }
  assert (Hres : forall p w, settled id w -> settled id (logged [Resolve p None] w)).
  { intros p w H. exact H. }
  assert (Hunpark : forall f w, settled id w ->
                      settled id (set_parked (List.filter f (parked w)) w)).
  { intros f w (Hc & Hn & Hp). repeat split; try assumption. cbn.
    apply Forall_filter_keep, Hp. }
  assert (Hparked : forall w, settled id w ->
                      Forall (fun x => good (pc_callId (snd x))) (parked w)).
  { intros w (_ & _ & Hp). exact Hp. }
  destruct ev;
    lazymatch goal with
    | |- inv _ (handle (SocketOpened ?sock)) =>
        intros w HP; unfold handle; rewrite bind_inspect_eq;
        destruct (listeners w !! sock); [|exact HP];
        revert w HP;
        apply (inv_on_socket_open _ good); auto
    | |- inv _ (handle (UserCall _ _ _ _)) =>
        unfold handle;
        apply inv_bind; [|intros; apply inv_ret];
        apply (inv_scaffold _ good); auto
    | |- inv _ (handle (UserLoaded _ _)) =>
        unfold handle, load_reply;
        apply inv_bind; [intros w HP; unfold_monad; exact HP | intros available];
        apply inv_load_each; auto
    | |- _ => intros w (Hc & Hn & Hp); unfold settled; exec; solve_settled
    end.
Qed.

(** *** The registry and the suspended stubs in every state *)

Lemma well_formed_same (L : list Z) (w w' : World) :
  calls (this w') = calls (this w) ->
  callId (this w') = callId (this w) ->
  parked w' = parked w ->
  well_formed_with L w -> well_formed_with L w'.
Proof.
  unfold well_formed_with, parked_ids. intros -> -> ->. auto.
Qed.

Lemma well_formed_delete (L : list Z) (k : key) (w w' : World) :
  calls (this w') = delete k (calls (this w)) ->
  callId (this w') = callId (this w) ->
  parked w' = parked w ->
  well_formed_with L w -> well_formed_with L w'.
Proof.
  unfold well_formed_with, parked_ids. intros -> -> -> (H1 & H2 & H3).
  repeat split; [| |exact H3].
  - intros z [q Hq]. apply lookup_delete_Some in Hq as [_ Hq]. apply H1. eauto.
  - eapply Forall_impl; [exact H2|]. intros i [Hi Hn]. split; [exact Hi|].
    apply lookup_delete_None. auto.
Qed.

Lemma well_formed_insert (L : list Z) (i : Z) (q : nat) (w w' : World) :
  calls (this w') = <[num i := q]> (calls (this w)) ->
  callId (this w') = callId (this w) ->
  parked w' = parked w ->
  well_formed_with (i :: L) w -> well_formed_with L w'.
Proof.
  unfold well_formed_with, parked_ids. intros -> -> -> (H1 & H2 & H3).
  cbn in H2, H3. apply Forall_cons in H2 as [[Hi _] H2].
  apply NoDup_cons in H3 as [Hni H3].
  repeat split; [| |exact H3].
  - intros z [r Hr]. destruct (decide (z = i)) as [->|Hne]; [exact Hi|].
    rewrite lookup_insert_ne in Hr by (intros ?%num_inj; congruence).
    apply H1. eauto.
  - rewrite Forall_forall in H2. apply Forall_forall. intros j Hj.
    destruct (H2 j Hj) as [Hle Hn]. split; [exact Hle|].
    rewrite lookup_insert_ne; [exact Hn|].
    intros ->%num_inj. contradiction.
Qed.

Lemma well_formed_park (L : list Z) (p : nat) (pc : parked_call) (w w' : World) :
  calls (this w') = calls (this w) ->
  callId (this w') = callId (this w) ->
  parked w' = parked w ++ [(p, pc)] ->
  well_formed_with (pc_callId pc :: L) w -> well_formed_with L w'.
Proof.
  unfold well_formed_with, parked_ids. intros -> -> -> (H1 & H2 & H3).
  rewrite fmap_app. cbn [fmap list_fmap snd].
  assert (Hperm : L ++ ((fun x => pc_callId (snd x)) <$> parked w) ++ [pc_callId pc]
                    ≡ₚ (pc_callId pc :: L) ++ ((fun x => pc_callId (snd x)) <$> parked w)).
  { rewrite app_assoc. cbn. symmetry. apply Permutation_cons_append. }
  repeat split; [exact H1 | |]; rewrite Hperm; assumption.
Qed.

Lemma executor_well_formed (L : list Z) (i : Z) (t : string) (a : json) (w : World) :
  well_formed_with (i :: L) w ->
  well_formed_with L (snd (executor JSON_stringify i t a w)).
Proof.
  intros H. exec;
    (eapply well_formed_insert; [| | |exact H]; reflexivity).
Qed.

Lemma open_well_formed (L : list Z) : inv (well_formed_with L) open.
Proof.
  intros w H. exec; (eapply well_formed_same; [| | |exact H]; reflexivity).
Qed.

Lemma well_formed_drop (L : list Z) (i : Z) (w : World) :
  well_formed_with (i :: L) w -> well_formed_with L w.
Proof.
  intros (H1 & H2 & H3). cbn in H2, H3.
  apply Forall_cons in H2 as [_ H2]. apply NoDup_cons in H3 as [_ H3].
  repeat split; assumption.
Qed.

Lemma call_connected_well_formed (L : list Z) (i : Z) (t : string) (a : json) (w : World) :
  well_formed_with (i :: L) w ->
  well_formed_with L (snd (call_connected JSON_stringify i t a w)).
Proof.
  intros H. unfold call_connected. unfold bind at 1. unfold read at 1. cbn beta iota.
  destruct (connected (id (this w))).
  - unfold bind. pose proof (executor_well_formed L i t a w H) as H'.
    destruct (executor JSON_stringify i t a w) as [[q|e] w']; exact H'.
  - unfold bind at 1. pose proof (open_well_formed _ w H) as H'.
    destruct (open w) as [[[p|]|e] w']; cbn [snd] in H'.
    + cbn. eapply well_formed_park with
        (pc := {| pc_callId := i; pc_target := t; pc_args := a; pc_stage := AwaitOpen |});
        [| | |exact H']; reflexivity.
    + unfold bind. pose proof (executor_well_formed L i t a w' H') as H''.
      destruct (executor JSON_stringify i t a w') as [[q|e] w'']; exact H''.
    + cbn. apply well_formed_drop with i. exact H'.
Qed.

Lemma resume_well_formed (L : list Z) (pc : parked_call) (w : World) :
  well_formed_with (pc_callId pc :: L) w ->
  well_formed_with L (snd (resume JSON_stringify pc w)).
Proof.
  intros H. unfold resume. destruct (pc_stage pc); unfold bind.
  - pose proof (call_connected_well_formed L _ (pc_target pc) (pc_args pc) w H) as H'.
    destruct (call_connected _ _ _ _ w) as [[q|e] w']; exact H'.
  - pose proof (executor_well_formed L _ (pc_target pc) (pc_args pc) w H) as H'.
    destruct (executor _ _ _ _ w) as [[q|e] w']; exact H'.
Qed.

Lemma resume_all_well_formed (pcs : list parked_call) (w : World) :
  well_formed_with (pc_callId <$> pcs) w ->
  well_formed (snd (resume_all JSON_stringify pcs w)).
Proof.
  revert w. induction pcs as [|pc pcs IH]; intros w H; cbn [resume_all].
  - exact H.
  - unfold bind. cbn in H.
    pose proof (resume_well_formed _ pc w H) as H'.
    destruct (resume JSON_stringify pc w) as [[[]|e] w']; cbn [snd] in *.
    + apply IH, H'.
    + clear -H'. induction pcs as [|x xs IHx]; [exact H'|].
      apply IHx. apply well_formed_drop with (pc_callId x). exact H'.
Qed.

Lemma settle_well_formed (p : nat) : inv well_formed (settle JSON_stringify p).
Proof.
  intros w H. unfold settle.
  unfold bind at 1. unfold log at 1. cbn beta iota.
  unfold bind at 1. cbn beta iota. unfold bind at 1. cbn beta iota.
  apply resume_all_well_formed.
  destruct H as (H1 & H2 & H3). unfold well_formed_with, parked_ids in *.
  cbn [this calls callId parked set_parked set_trace app] in *.
  rewrite <- !list_fmap_compose.
  rewrite filter_partition.
  assert (Hperm :
    ((pc_callId ∘ snd) <$> List.filter (fun x => Nat.eqb (fst x) p) (parked w)) ++
    ((fun x => pc_callId (snd x)) <$>
       List.filter (fun x => negb (Nat.eqb (fst x) p)) (parked w))
    ≡ₚ (fun x => pc_callId (snd x)) <$> parked w).
  { change (pc_callId ∘ snd) with (fun x : nat * parked_call => pc_callId (snd x)).
    rewrite <- fmap_app. apply fmap_Permutation, filter_partition. }
  repeat split; [exact H1 | |]; rewrite Hperm; assumption.
Qed.

Lemma scaffold_well_formed (iname : string) (ver : option string) (methodName : string)
    (args : option json) :
  inv well_formed (scaffold JSON_stringify iname ver methodName args).
Proof.
  intros w (H1 & H2 & H3). unfold scaffold.
  unfold bind at 1. unfold read at 1. cbn beta iota.
  rewrite bind_update_eq. cbn [id].
  assert (Hnew : well_formed_with [callId (this w) + 1]
                   (set_this (set_callId (callId (this w) + 1) (this w)) w)).
  { unfold well_formed_with, parked_ids in *. cbn in *. repeat split.
    - intros z Hz. specialize (H1 z Hz). lia.
    - constructor.
      + split; [lia|]. destruct (calls (this w) !! num (callId (this w) + 1)) eqn:E;
          [|reflexivity].
        assert (callId (this w) + 1 <= callId (this w)) by (apply H1; eauto). lia.
      + eapply Forall_impl; [exact H2|]. intros i [Hi Hn]. split; [lia | exact Hn].
    - apply NoDup_cons. split; [|exact H3].
      intros Hin. rewrite Forall_forall in H2. destruct (H2 _ Hin). lia. }
  destruct (opening (this w)).
  - cbn. eapply well_formed_park with
      (pc := {| pc_callId := callId (this w) + 1; pc_target := _; pc_args := _;
                pc_stage := AwaitOpening |});
      [| | |exact Hnew]; reflexivity.
  - unfold bind.
    match goal with
    | |- context [call_connected ?s ?i ?t ?a ?w'] =>
        pose proof (call_connected_well_formed [] i t a w' Hnew) as H';
        destruct (call_connected s i t a w') as [[q|e] w'']; exact H'
    end.
Qed.

Lemma handle_well_formed (ev : event) : inv well_formed (handle ev).
Proof.
  destruct ev;
    lazymatch goal with
    | |- inv _ (handle (SocketOpened ?sock)) =>
        intros w HP; unfold handle; rewrite bind_inspect_eq;
        destruct (listeners w !! sock); [|exact HP];
        revert w HP; unfold on_socket_open;
        do 3 (apply inv_bind; [intros w HP; exact HP | intros _]);
        apply settle_well_formed
    | |- inv _ (handle (UserCall _ _ _ _)) =>
        unfold handle;
        apply inv_bind; [apply scaffold_well_formed | intros; apply inv_ret]
    | |- inv _ (handle (UserLoaded _ _)) =>
        unfold handle, load_reply;
        apply inv_bind; [intros w HP; unfold_monad; exact HP | intros available];
        apply inv_load_each; auto
    | |- _ =>
        intros w H; unfold well_formed; exec;
        first [ exact H
              | eapply well_formed_same; [| | |exact H]; reflexivity
              | eapply well_formed_delete; [| | |exact H]; reflexivity ]
    end.
Qed.

Lemma create_well_formed (url : string) (o : options) (me : nat) (others : gset nat)
    (time : Z) :
  well_formed (create url o me others time).
Proof.
  unfold create. apply open_well_formed.
  repeat split; cbn.
  - intros z [q Hq]. rewrite lookup_empty in Hq. discriminate.
  - constructor.
  - constructor.
Qed.

Lemma reachable_well_formed (w : World) : reachable ID_LENGTH JSON_parse JSON_stringify w -> well_formed w.
Proof.
  intros (url & o & me & others & time & es & ->).
  apply (inv_run well_formed (fun _ => true)).
  - intros ev _. apply handle_well_formed.
  - induction es; cbn; auto.
  - apply create_well_formed.
Qed.

(** What [message] does with a reply to a call that has no entry. *)
Lemma message_unknown_callback (w : World) (data : string) (packet : json)
    (rest : list string) :
  JSON_parse data = Some packet ->
  Object_keys packet = Ok ("callback" :: rest) ->
  map_get (calls (this w)) (js_get packet "callback") = None ->
  message JSON_parse data w = (Ok tt, received data w).
Proof.
  intros H1 H2 H3. unfold message, received, dispatch, on_callback. unfold_monad. cbn.
  destruct (String.eqb data "{}"); [reflexivity|]. cbn.
  rewrite H1. cbn. rewrite H2. cbn.
  change (js_get_opt packet (Some "callback")) with (js_get packet "callback").
  destruct (truthy (js_get packet "callback")); [|reflexivity].
  cbn. rewrite H3. reflexivity.
Qed.

(** C2. Registration stores the promise under the call id and arms a
    timer with the call timeout. In every state a connection gets into,
    when the timer of a call fires while its entry is there, the entry goes
    and the promise is rejected with the timeout error, and nothing else
    happens. From then on, whatever events follow, a callback packet for
    that id changes nothing but the time of receipt: no continuation, no
    error, no word in the console. The same holds for every callback whose
    id has no entry, whatever the reason. *)
Theorem call_timeout_race :
  (forall w i t a,
     exists w',
       executor JSON_stringify i t a w = (Ok (fresh w), w') /\
       calls (this w') !! num i = Some (fresh w) /\
       In (SetTimeout (CallTimeout i (fresh w)) (callTimeout (this w))) (trace w')) /\
  (forall w id promise,
     reachable ID_LENGTH JSON_parse JSON_stringify w ->
     calls (this w) !! num id = Some promise ->
     step (CallTimer id promise) w =
       logged [Reject promise RequestTimeout]
         (set_this (set_calls (delete (num id) (calls (this w))) (this w)) w) /\
     forall es data packet rest,
       JSON_parse data = Some packet ->
       Object_keys packet = Ok ("callback" :: rest) ->
       js_get packet "callback" = Some (JNum (Int id)) ->
       message JSON_parse data (run es (step (CallTimer id promise) w)) =
         (Ok tt, received data (run es (step (CallTimer id promise) w)))) /\
  (forall w data packet rest,
     JSON_parse data = Some packet ->
     Object_keys packet = Ok ("callback" :: rest) ->
     map_get (calls (this w)) (js_get packet "callback") = None ->
     message JSON_parse data w = (Ok tt, received data w)).
Proof.
  repeat apply conj.
  - intros w i t a. exec; eexists; (split; [reflexivity|]);
      cbn; (split; [apply lookup_insert_eq|]);
      rewrite ?in_app_iff; cbn; auto.
  - intros w id promise Hw Hq.
    destruct (reachable_well_formed w Hw) as (Hissued & Hparked & _).
    assert (Hn : id <= callId (this w)) by (apply Hissued; eauto).
    assert (Hp : Forall (fun x => pc_callId (snd x) <> id) (parked w)).
    { unfold parked_ids in Hparked. cbn in Hparked.
      apply Forall_fmap in Hparked. eapply Forall_impl; [exact Hparked|].
      cbn. intros x [_ Hx] Heq. rewrite Heq in Hx. congruence. }
    assert (Hstep : step (CallTimer id promise) w =
              logged [Reject promise RequestTimeout]
                (set_this (set_calls (delete (num id) (calls (this w))) (this w)) w)).
    { unfold step, handle, on_call_timer. unfold_monad. cbn. rewrite Hq. reflexivity. }
    split; [exact Hstep|].
    intros es data packet rest H1 H2 H3.
    apply (message_unknown_callback _ data packet rest H1 H2).
    rewrite H3. cbn.
    assert (Hs : settled id (run es (step (CallTimer id promise) w))).
    { apply (inv_run (settled id) (fun _ => true) es); [intros; apply handle_settled | |].
      - clear. induction es; cbn; auto.
      - rewrite Hstep. repeat split; cbn; try assumption. apply lookup_delete_eq. }
    apply Hs.
  - exact message_unknown_callback.
Qed.

End ConnectionFacts.

(** ** The theorems at work on the example states *)

Lemma calling_reachable : reachable 4 parse stringify calling.
Proof.
  exists "wss://example.com/api", example_options, 7%nat, ∅, 1000,
    [SocketOpened 0%nat; UserCall "chat" None "send" None; Tick 1060].
  vm_compute. reflexivity.
Qed.

Lemma call_timeout_race_witness :
  step 4 parse stringify (CallTimer 1 2%nat) calling =
    logged [Reject 2%nat RequestTimeout]
      (set_this (set_calls (delete (num 1) (calls (this calling))) (this calling)) calling) /\
  message parse reply
      (run 4 parse stringify [Tick 2000] (step 4 parse stringify (CallTimer 1 2%nat) calling)) =
    (Ok tt, received reply
      (run 4 parse stringify [Tick 2000] (step 4 parse stringify (CallTimer 1 2%nat) calling))).
Proof.
  assert (H1 : calls (this calling) !! num 1 = Some 2%nat) by (vm_compute; reflexivity).
  destruct (proj1 (proj2 (call_timeout_race 4 parse stringify)) calling 1 2%nat
              calling_reachable H1)
    as [Hstep Hlate].
  split; [exact Hstep|].
  apply (Hlate [Tick 2000] reply
           (JObj [("callback", JNum (Int 1)); ("chat/send", JStr "ok")]) ["chat/send"]);
    vm_compute; reflexivity.
Defined.

Lemma reconnect_unless_closed_witness :
  trace (step 4 parse stringify (SocketClosed 0%nat) established) =
    trace established ++ [Emit "close"; SetTimeout Reconnect 2000] /\
  opens (trace (run 4 parse stringify
                  [SocketClosed 0%nat; ReconnectTimer; Online; UserSend (Text "ping");
                   UserClose; UserCreateStream "f" 3; PingTimer]
                  (step 4 parse stringify UserClose established))) =
    opens (trace established).
Proof.
  destruct (reconnect_unless_closed 4 parse stringify) as (Hclose & _ & Hquiet).
  split.
  - apply (Hclose established 0%nat). vm_compute. set_solver.
  - apply (Hquiet established
             [SocketClosed 0%nat; ReconnectTimer; Online; UserSend (Text "ping");
              UserClose; UserCreateStream "f" 3; PingTimer]);
      vm_compute; reflexivity.
Defined.

(** The claim C3 fails where it says that after [close()] no automatic
    reopen ever occurs. The connection [closing] was closed by [close()]:
    it is inactive and not registered. A call of the user then opens it
    again, and when the socket of that call has closed ([recalled]), the
    reconnection timer, an event that is no call of the user, enters
    [open()] and creates a socket. *)
Lemma reopen_after_close_and_call :
  active (this closing) = false /\
  bool_decide (self closing ∈ connections closing) = false /\
  active (this recalled) = true /\
  automatic ReconnectTimer = true /\
  opens (trace (step 4 parse stringify ReconnectTimer recalled)) = S (opens (trace recalled)) /\
  sockets_created (trace (step 4 parse stringify ReconnectTimer recalled)) =
    S (sockets_created (trace recalled)).
Proof. repeat apply conj; vm_compute; reflexivity. Qed.

(** The claim C4 fails where it says that a packet with a falsy id
    changes no state: the reply with id 0, received at 1060 by a connection
    last active at 1000, moves [lastActivity] to 1060. *)
Lemma falsy_id_updates_lastActivity :
  parse zero_reply = Some (JObj [("callback", JNum (Int 0)); ("chat/send", JStr "ok")]) /\
  lastActivity (this calling) = 1000 /\
  lastActivity (this (snd (message parse zero_reply calling))) = 1060.
Proof. repeat apply conj; vm_compute; reflexivity. Qed.

Lemma id_validity_witness :
  message parse zero_reply calling = (Ok tt, touched calling).
Proof.
  apply (proj2 (proj2 (proj2 (proj2 (id_validity 4 parse stringify)))) calling zero_reply
           (JObj [("callback", JNum (Int 0)); ("chat/send", JStr "ok")])
           ["callback"; "chat/send"]);
    vm_compute; reflexivity.
Defined.

Lemma open_idempotent_witness :
  open connecting = (Ok (Pending 1%nat), logged [Called "open"] connecting) /\
  open established = (Ok Resolved, logged [Called "open"] established) /\
  fst (open http_world) = Ok Resolved.
Proof.
  split; [|split].
  - apply (proj1 (open_idempotent connecting)); vm_compute; reflexivity.
  - apply (proj1 (proj2 (open_idempotent established))); vm_compute; reflexivity.
  - apply (proj2 (proj2 (open_idempotent http_world))). vm_compute; reflexivity.
Defined.




(** The claim C9 fails for the socket binding while it is not connected:
    a send at 1060 is dropped at the guard and [lastActivity] stays at
    1000. *)
Lemma send_while_disconnected :
  kind (this stalled) = Ws /\
  connected (this stalled) = false /\
  clock stalled = 1060 /\
  Metacom_send (Text "ping") stalled = (Ok tt, stalled) /\
  lastActivity (this stalled) = 1000.
Proof. repeat apply conj; vm_compute; reflexivity. Qed.

Lemma send_lastActivity_witness :
  lastActivity (this (snd (Metacom_send (Text "ping") calling))) = clock calling /\
  Metacom_send (Text "ping") stalled = (Ok tt, stalled).
Proof.
  split.
  - apply (proj1 (send_lastActivity calling (Text "ping"))). right.
    vm_compute; reflexivity.
  - apply (proj2 (send_lastActivity stalled (Text "ping"))); vm_compute; reflexivity.
Defined.

(** The claim C10 fails when the peer has opened a stream under the id
    that [createStream] returns next: [getStream] of that id succeeds, and
    a frame with that id is delivered to the readable of the peer's stream
    without a warning. *)
Lemma createStream_id_in_use :
  exists writable w' a,
    createStream stringify "g" 3 receiving = (Ok writable, w') /\
    w_id writable = 1 /\
    getStream (Some (JNum (Int 1))) w' = (Ok a, w') /\
    console (trace (snd (binary 4 (Chunk.encode 4 1 [Byte.x01]) w'))) = console (trace w') /\
    r_buffer <$> heap (snd (binary 4 (Chunk.encode 4 1 [Byte.x01]) w')) !! a
      = Some [[Byte.x01]].
Proof.
  do 3 eexists. split; [vm_compute; reflexivity|].
  repeat apply conj; vm_compute; reflexivity.
Qed.

Lemma createStream_not_registered_witness :
  exists writable w',
    createStream stringify "g" 3 established = (Ok writable, w') /\
    getStream (Some (JNum (Int (w_id writable)))) w' =
      (Throw (StreamNotInitialized (Some (JNum (Int (w_id writable))))), w').
Proof.
  destruct (createStream stringify "g" 3 established) as [[writable|e] w'] eqn:H;
    [|vm_compute in H; discriminate H].
  exists writable, w'. split; [reflexivity|].
  destruct (proj2 (createStream_not_registered 4 parse stringify)
              established "g" 3 writable w' H) as (Hid & _ & _ & Hget).
  apply Hget. rewrite Hid. vm_compute. reflexivity.
Defined.

(** * Further properties of the client *)

Section InboundFacts.
Variable ID_LENGTH : nat.
Variable JSON_parse : string -> option json.
Variable JSON_stringify : json -> string.

Local Abbreviation handle := (handle ID_LENGTH JSON_parse JSON_stringify).
Local Abbreviation step := (step ID_LENGTH JSON_parse JSON_stringify).
Local Abbreviation run := (run ID_LENGTH JSON_parse JSON_stringify).

(** ** Inbound text units *)

(** X1. The heartbeat text changes nothing at all; every other text,
    whatever becomes of it, leaves [lastActivity] at the time of
    receipt. *)
Theorem message_records_receipt (data : string) (w : World) :
  (data = "{}" -> message JSON_parse data w = (Ok tt, w)) /\
  (data <> "{}" -> lastActivity (this (snd (message JSON_parse data w))) = clock w).
Proof.
  split.
  - intros ->. reflexivity.
  - intros Hne. apply String.eqb_neq in Hne.
    unfold message, dispatch, on_callback, on_event, on_stream.
    unfold_monad. cbn. rewrite Hne. cbn.
    repeat (break_match; cbn); reflexivity.
Qed.

Lemma message_parsed (data : string) (packet : json) (w : World) :
  String.eqb data "{}" = false ->
  JSON_parse data = Some packet ->
  message JSON_parse data w = dispatch packet (touched w).
Proof.
  intros Hne Hparse. unfold message. rewrite Hne.
  unfold_monad. cbn. rewrite Hparse. reflexivity.
Qed.

Lemma dispatch_other_tag (packet : json) (keys : list string) (w : World) :
  Object_keys packet = Ok keys ->
  is_tag (keys !! 0%nat) = false ->
  dispatch packet w = (Ok tt, w).
Proof.
  intros Hkeys Htag. unfold dispatch, lift, bind. rewrite Hkeys.
  unfold is_tag in Htag.
  apply orb_false_elim in Htag as [Htag Hs].
  apply orb_false_elim in Htag as [Hc He].
  rewrite Hc, He, Hs. destruct (truthy _); reflexivity.
Qed.

Lemma dispatch_tagged (packet : json) (tag : string) (rest : list string) (w : World) :
  Object_keys packet = Ok (tag :: rest) ->
  truthy (js_get packet tag) = true ->
  dispatch packet w =
    (if String.eqb tag "callback"
     then on_callback packet (js_get packet tag) (js_get_opt packet (rest !! 0%nat))
     else if String.eqb tag "event"
     then on_event (rest !! 0%nat) (js_get_opt packet (rest !! 0%nat))
     else if String.eqb tag "stream" then on_stream packet
     else ret tt) w.
Proof.
  intros Hkeys Htruthy. unfold dispatch, lift, bind at 1. rewrite Hkeys.
  cbn [lookup list_lookup is_type].
  change (js_get_opt packet (Some tag)) with (js_get packet tag).
  rewrite Htruthy. reflexivity.
Qed.

Lemma indices_tag (n : nat) : is_tag (indices n !! 0%nat) = false.
Proof. destruct n; reflexivity. Qed.

(** X2. A text that parses to something other than a callback, event or
    stream packet: the literal null makes [message] throw a TypeError
    (from [Object.keys]); a packet whose first key is none of the three
    tags - a call packet of the peer, say - is ignored; and so is every
    other value that is not an object (a number, a string, an array).
    In each case only [lastActivity] has changed. *)
Theorem message_other_values (data : string) (packet : json) (w : World) :
  data <> "{}" ->
  JSON_parse data = Some packet ->
  (packet = JNull -> message JSON_parse data w = (Throw TypeError, touched w)) /\
  (forall keys, Object_keys packet = Ok keys -> is_tag (keys !! 0%nat) = false ->
     message JSON_parse data w = (Ok tt, touched w)) /\
  (is_object packet = false -> packet <> JNull ->
     message JSON_parse data w = (Ok tt, touched w)).
Proof.
  intros Hne Hparse. apply String.eqb_neq in Hne.
  rewrite (message_parsed _ _ _ Hne Hparse).
  split; [|split].
  - intros ->. reflexivity.
  - intros keys Hkeys Htag. exact (dispatch_other_tag _ _ _ Hkeys Htag).
  - intros Hobj Hnull.
    destruct packet as [|b|n|s|xs|kvs]; try discriminate Hobj; try congruence.
    + reflexivity.
    + reflexivity.
    + eapply dispatch_other_tag; [reflexivity | apply indices_tag].
    + eapply dispatch_other_tag; [reflexivity | apply indices_tag].
Qed.

(** X3. A reply to a call that is registered settles it once: the entry
    leaves the registry and the promise is rejected with the error of the
    packet, or resolved with the value under the second key. The same
    reply again changes nothing but [lastActivity], and the timer of
    the call, when it fires afterwards, changes nothing at all. *)
Theorem reply_settles_once (w : World) (data : string) (packet : json) (rest : list string)
    (k : key) (promise : nat) :
  data <> "{}" ->
  JSON_parse data = Some packet ->
  Object_keys packet = Ok ("callback" :: rest) ->
  truthy (js_get packet "callback") = true ->
  js_get packet "callback" ≫= prim_key = Some k ->
  calls (this w) !! k = Some promise ->
  let w' := logged [settlement promise packet (js_get_opt packet (rest !! 0%nat))]
              (set_this (set_calls (delete k (calls (this w))) (this (touched w)))
                 (touched w)) in
  message JSON_parse data w = (Ok tt, w') /\
  message JSON_parse data w' = (Ok tt, touched w') /\
  (forall z, k = num z -> step (CallTimer z promise) w' = w').
Proof.
  intros Hne Hparse Hkeys Htruthy Hk Hq w'.
  apply String.eqb_neq in Hne.
  assert (Hget : forall m : gmap key nat,
            map_get m (js_get packet "callback") = m !! k).
  { intros m. unfold map_get. destruct (js_get packet "callback") as [v|]; [|discriminate Hk].
    cbn in Hk. rewrite Hk. reflexivity. }
  split; [|split].
  - rewrite (message_parsed _ _ _ Hne Hparse).
    rewrite (dispatch_tagged _ _ _ _ Hkeys Htruthy).
    cbn [String.eqb Ascii.eqb Bool.eqb andb].
    unfold on_callback. unfold_monad. cbn.
    rewrite Hget, Hq, Hk. subst w'. unfold settlement.
    destruct (truthy (js_get packet "error")); reflexivity.
  - rewrite (message_unknown_callback JSON_parse w' data packet rest Hparse Hkeys).
    + unfold received. rewrite Hne. reflexivity.
    + rewrite Hget. subst w'. cbn. apply lookup_delete_eq.
  - intros z ->. subst w'. unfold step, handle, on_call_timer.
    unfold_monad. cbn. rewrite lookup_delete_eq. reflexivity.
Qed.


(** ** Streams of the peer *)

(** X5. Once an init packet has registered a stream, [getStream] with
    the id of the packet returns that stream, which is active and empty;
    once an end or terminate packet has arrived for a registered stream,
    [getStream] with its id throws again. *)
Theorem getStream_follows_packets (w : World) (data : string) (packet : json)
    (rest : list string) (k : key) :
  data <> "{}" ->
  JSON_parse data = Some packet ->
  Object_keys packet = Ok ("stream" :: rest) ->
  truthy (js_get packet "stream") = true ->
  js_get packet "stream" ≫= prim_key = Some k ->
  let id := js_get packet "stream" in
  let w' := snd (message JSON_parse data w) in
  (is_init packet = true -> streams (this w) !! k = None ->
     exists a,
       getStream id w' = (Ok a, w') /\
       heap w' !! a = Some {| r_id := k; r_name := string_of (js_get packet "name");
                              r_size := integer_of (js_get packet "size");
                              r_state := ACTIVE; r_buffer := [] |}) /\
  (is_init packet = false -> is_Some (streams (this w) !! k) ->
     is_literal (js_get packet "status") "end" = true \/
     is_literal (js_get packet "status") "terminate" = true ->
     getStream id w' = (Throw (StreamNotInitialized id), w')).
Proof.
  intros Hne Hparse Hkeys Htruthy Hk id w'. subst id w'.
  apply String.eqb_neq in Hne.
  assert (Hget : forall m : gmap key nat, map_get m (js_get packet "stream") = m !! k).
  { intros m. unfold map_get. destruct (js_get packet "stream") as [v|]; [|discriminate Hk].
    cbn in Hk. rewrite Hk. reflexivity. }
  rewrite (message_parsed _ _ _ Hne Hparse).
  rewrite (dispatch_tagged _ _ _ _ Hkeys Htruthy).
  cbn [String.eqb Ascii.eqb Bool.eqb andb].
  split.
  - intros Hinit Hnone.
    assert (Hw : snd (on_stream packet (touched w)) =
                 set_this (set_streams (<[k := fresh w]> (streams (this w)))
                                  (this (touched w)))
                        (set_heap (<[fresh w := Readable.new k (string_of (js_get packet "name"))
                                                  (integer_of (js_get packet "size"))]> (heap w))
                           (set_fresh (S (fresh w)) (touched w)))).
    { unfold on_stream. unfold_monad. cbn.
      rewrite Hinit, Hget, Hnone, Hk. reflexivity. }
    rewrite Hw. exists (fresh w). split.
    + unfold getStream. unfold_monad. rewrite Hget.
      cbn. rewrite lookup_insert_eq. reflexivity.
    + cbn. rewrite lookup_insert_eq. reflexivity.
  - intros Hinit [a Ha] Hstatus.
    set (w' := snd (on_stream packet (touched w))).
    assert (Hs : streams (this w') = delete k (streams (this w))).
    { subst w'. unfold on_stream. unfold_monad. cbn.
      rewrite Hinit, Hget, Ha, Hk.
      destruct (is_literal (js_get packet "status") "end") eqn:He; [reflexivity|].
      destruct Hstatus as [Hs|Hs]; [discriminate Hs|]. rewrite Hs. reflexivity. }
    clearbody w'.
    unfold getStream. unfold_monad. cbn. rewrite Hget, Hs, lookup_delete_eq. reflexivity.
Qed.

(** X6. A binary unit is no activity and is never answered: whatever the
    frame, the listener for message leaves every field of the connection
    as it was, [lastActivity] included, and hands nothing to the wire. *)
Theorem binary_is_no_activity (blob : bytes) (w : World) :
  let w' := snd (on_socket_message ID_LENGTH JSON_parse (BlobData blob) w) in
  this w' = this w /\
  connections w' = connections w /\
  parked w' = parked w /\
  sent (trace w') = sent (trace w).
Proof.
  unfold on_socket_message, binary, sent. unfold_monad. cbn.
  repeat (break_match; cbn); rewrite ?omap_app; cbn; rewrite ?app_nil_r; auto.
Qed.

(** ** Invariants of all handlers *)

(** An invariant of the pieces of the handlers is an invariant of every
    handler. *)
Section Handlers.
Variable P : World -> Prop.
Variable good : Z -> Prop.
Hypothesis P_executor : forall i t a, good i -> inv P (executor JSON_stringify i t a).
Hypothesis P_open : forall w, P w -> connected (this w) = false -> P (snd (open w)).
Hypothesis P_park : forall p pc w,
  good (pc_callId pc) -> P w -> P (set_parked (parked w ++ [(p, pc)]) w).
Hypothesis P_next : forall w,
  P w ->
  P (set_this (set_callId (callId (this w) + 1) (this w)) w) /\
  good (callId (this w) + 1).
Hypothesis P_opened : forall p w,
  P w ->
  let w' := logged [Resolve p None]
              (logged [Emit "open"]
                 (set_this (set_connected true (set_opening None (this w))) w)) in
  P (set_parked (List.filter (fun x => negb (Nat.eqb (fst x) p)) (parked w')) w') /\
  Forall (fun x => good (pc_callId (snd x))) (parked w').
Hypothesis P_api : forall a w, P w -> P (set_this (set_api a (this w)) w).
Hypothesis P_plain : forall ev, plain ev = true -> inv P (handle ev).

Lemma inv_handle (ev : event) : inv P (handle ev).
Proof.
  destruct ev; try (apply P_plain; reflexivity).
  - intros w HP. unfold handle. rewrite bind_inspect_eq.
    destruct (listeners w !! sock) as [p|]; [|exact HP].
    destruct (P_opened p w HP) as [HP' Hgood].
    unfold on_socket_open, settle. unfold emit, log.
    unfold bind at 1. unfold update at 1. cbn beta iota.
    unfold bind at 1. unfold update at 1. cbn beta iota.
    unfold bind at 1. unfold modify at 1. cbn beta iota.
    unfold bind at 1. unfold modify at 1. cbn beta iota.
    unfold bind at 1. unfold inspect at 1. cbn beta iota.
    unfold bind at 1. unfold modify at 1. cbn beta iota.
    refine (inv_resume_all JSON_stringify P good P_executor P_open P_park _ _ _ _).
    + apply Forall_fmap, Forall_forall. intros x Hx.
      rewrite filter_partition in Hx.
      rewrite Forall_forall in Hgood. apply Hgood.
      apply list_elem_of_In in Hx. apply List.filter_In in Hx.
      apply list_elem_of_In. exact (proj1 Hx).
    + exact HP'.
  - unfold handle. apply inv_bind; [|intros; apply inv_ret].
    exact (inv_scaffold JSON_stringify P good P_executor P_open P_park P_next _ _ _ _).
  - unfold handle, load_reply.
    apply inv_bind; [intros w HP; unfold_monad; exact HP | intros available].
    apply inv_load_each. exact P_api.
Qed.

End Handlers.

Lemma inv_events (P : World -> Prop) (es : list event) (w : World) :
  (forall ev, inv P (handle ev)) -> P w -> P (run es w).
Proof.
  intros Hinv. apply (inv_run ID_LENGTH JSON_parse JSON_stringify P (fun _ => true)).
  - intros ev _. apply Hinv.
  - induction es; [reflexivity | assumption].
Qed.

(** ** What the constructor fixes *)

Lemma handle_settings (c : string * transport_kind * Z * Z * Z * nat) (ev : event) :
  inv (fun w => settings w = c) (handle ev).
Proof.
  apply (inv_handle (fun w => settings w = c) (fun _ => True)).
  - intros i t a _ w HP. rewrite <- HP. clear HP. unfold settings. exec; congruence.
  - intros w HP _. rewrite <- HP. clear HP. unfold settings. exec; congruence.
  - intros p pc w _ HP. exact HP.
  - intros w HP. split; [exact HP | exact I].
  - intros p w HP. split; [exact HP|]. apply Forall_forall. intros; exact I.
  - intros a w HP. exact HP.
  - intros ev' Hev. destruct ev'; try discriminate Hev;
      intros w HP; rewrite <- HP; clear HP; unfold settings; exec; congruence.
Qed.

Lemma or_default_nonzero (o : option Z) (d : Z) : d <> 0 -> or_default o d <> 0.
Proof.
  intros Hd. unfold or_default. destruct o as [z|]; [|exact Hd].
  destruct (Z.eqb_spec z 0); assumption.
Qed.

(** X7. What the constructor sets stays as it is through every event:
    the address, the class chosen from the address (the socket binding
    when it starts with ws), and the three timeouts, which are the
    options given with a missing or zero option replaced by the default;
    so no timeout of a connection is ever 0. *)
Theorem settings_are_fixed (address : string) (o : options) (me : nat) (others : gset nat)
    (time : Z) (es : list event) :
  let w := run es (create address o me others time) in
  url (this w) = address /\
  kind (this w) = (if String.prefix "ws" address then Ws else Http) /\
  callTimeout (this w) = or_default (opt_callTimeout o) CALL_TIMEOUT /\
  pingInterval (this w) = or_default (opt_pingInterval o) PING_INTERVAL /\
  reconnectTimeout (this w) = or_default (opt_reconnectTimeout o) RECONNECT_TIMEOUT /\
  self w = me /\
  callTimeout (this w) <> 0 /\ pingInterval (this w) <> 0 /\ reconnectTimeout (this w) <> 0.
Proof.
  intros w.
  assert (H : settings w =
              (address, if String.prefix "ws" address then Ws else Http,
               or_default (opt_callTimeout o) CALL_TIMEOUT,
               or_default (opt_pingInterval o) PING_INTERVAL,
               or_default (opt_reconnectTimeout o) RECONNECT_TIMEOUT, me)).
  { subst w. apply (inv_events (fun w => settings w = _)).
    - intros ev. apply handle_settings.
    - unfold create, settings. destruct (String.prefix "ws" address); exec; reflexivity. }
  unfold settings in H. injection H as -> -> -> -> -> ->.
  repeat apply conj; try reflexivity; apply or_default_nonzero; discriminate.
Qed.

(** ** The keys of the registry *)

Lemma numbered_same (w w' : World) :
  calls (this w') = calls (this w) ->
  callId (this w') = callId (this w) ->
  parked w' = parked w ->
  numbered w -> numbered w'.
Proof. unfold numbered. intros -> -> ->. exact id. Qed.

Lemma numbered_delete (k : key) (w w' : World) :
  calls (this w') = delete k (calls (this w)) ->
  callId (this w') = callId (this w) ->
  parked w' = parked w ->
  numbered w -> numbered w'.
Proof.
  unfold numbered. intros -> -> -> (H0 & Hk & Hp). repeat split; try assumption.
  intros k' Hs. apply Hk. apply lookup_delete_is_Some in Hs. apply Hs.
Qed.

Lemma numbered_insert (i : Z) (q : nat) (w w' : World) :
  1 <= i ->
  calls (this w') = <[num i := q]> (calls (this w)) ->
  callId (this w') = callId (this w) ->
  parked w' = parked w ->
  numbered w -> numbered w'.
Proof.
  unfold numbered. intros Hi -> -> -> (H0 & Hk & Hp). repeat split; try assumption.
  intros k' Hs. apply lookup_insert_is_Some in Hs as [<-|[_ Hs]]; [|apply Hk, Hs].
  exists i. split; [reflexivity | exact Hi].
Qed.

Lemma executor_numbered (i : Z) (t : string) (a : json) :
  1 <= i -> inv numbered (executor JSON_stringify i t a).
Proof.
  intros Hi w HP.
  apply (numbered_insert i (fresh w) w); try assumption; exec; reflexivity.
Qed.

Lemma open_numbered : inv numbered open.
Proof. intros w HP. apply (numbered_same w); try assumption; exec; reflexivity. Qed.

Lemma handle_numbered (ev : event) : inv numbered (handle ev).
Proof.
  apply (inv_handle numbered (fun i => 1 <= i)).
  - exact executor_numbered.
  - intros w HP _. apply open_numbered, HP.
  - intros p pc w Hi (H0 & Hk & Hp). repeat split; try assumption.
    cbn. apply Forall_app. split; [exact Hp|]. apply Forall_cons. split; [exact Hi | constructor].
  - intros w (H0 & Hk & Hp). split; [|lia]. repeat split; try assumption. cbn. lia.
  - intros p w (H0 & Hk & Hp). split.
    + repeat split; try assumption. cbn. apply Forall_filter_keep, Hp.
    + exact Hp.
  - intros a w HP. exact HP.
  - intros ev' Hev. destruct ev'; try discriminate Hev; intros w HP;
      exec;
      first [ exact HP
            | apply (numbered_same w); [reflexivity | reflexivity | reflexivity | exact HP]
            | eapply (numbered_delete _ w); [reflexivity | reflexivity | reflexivity | exact HP] ].
Qed.

Lemma reachable_numbered (w : World) :
  reachable ID_LENGTH JSON_parse JSON_stringify w -> numbered w.
Proof.
  intros (address & o & me & others & time & es & ->).
  apply (inv_events numbered); [exact handle_numbered|].
  unfold create. apply open_numbered.
  repeat split; cbn; [lia | | constructor].
  intros k Hs. rewrite lookup_empty in Hs. destruct Hs as [? Hs]. discriminate Hs.
Qed.

(** X8. A reply is matched only against the ids that were issued: in
    every state a connection gets into, a reply whose id is not one of
    the integers from 1 to the current [callId] - a larger number, a
    fraction, the number as a string - finds no call and is dropped, with
    nothing changed but [lastActivity]. *)
Theorem unissued_reply_is_dropped (w : World) (data : string) (packet : json)
    (rest : list string) :
  reachable ID_LENGTH JSON_parse JSON_stringify w ->
  data <> "{}" ->
  JSON_parse data = Some packet ->
  Object_keys packet = Ok ("callback" :: rest) ->
  (forall z, 1 <= z <= callId (this w) -> js_get packet "callback" <> Some (JNum (Int z))) ->
  message JSON_parse data w = (Ok tt, touched w).
Proof.
  intros Hreach Hne Hparse Hkeys Hid. apply String.eqb_neq in Hne.
  rewrite (message_unknown_callback JSON_parse w data packet rest Hparse Hkeys).
  - unfold received. rewrite Hne. reflexivity.
  - destruct (map_get (calls (this w)) (js_get packet "callback")) as [q|] eqn:Hq;
      [exfalso | reflexivity].
    apply map_get_key in Hq as (k & Hk & Hq).
    destruct (reachable_numbered w Hreach) as (_ & Hnum & _).
    destruct (Hnum k) as (z & -> & Hz); [rewrite Hq; eauto|].
    destruct (reachable_well_formed ID_LENGTH JSON_parse JSON_stringify w Hreach) as (Hle & _).
    specialize (Hle z). rewrite Hq in Hle. specialize (Hle (mk_is_Some _ _ eq_refl)).
    apply (Hid z); [lia|].
    destruct (js_get packet "callback") as [v|]; [|discriminate Hk].
    cbn in Hk. destruct v; try discriminate Hk. cbn in Hk. injection Hk as ->. reflexivity.
Qed.

End InboundFacts.

(** * Properties of every state a connection gets into *)

Section ReachableFacts.
Variable ID_LENGTH : nat.
Variable JSON_parse : string -> option json.
Variable JSON_stringify : json -> string.

Local Abbreviation handle := (handle ID_LENGTH JSON_parse JSON_stringify).
Local Abbreviation step := (step ID_LENGTH JSON_parse JSON_stringify).
Local Abbreviation run := (run ID_LENGTH JSON_parse JSON_stringify).
Local Abbreviation reachable := (reachable ID_LENGTH JSON_parse JSON_stringify).
Local Abbreviation inv_handle := (inv_handle ID_LENGTH JSON_parse JSON_stringify).
Local Abbreviation inv_events := (inv_events ID_LENGTH JSON_parse JSON_stringify).

(** ** Ping intervals *)

Ltac count_trace :=
  unfold intervals, sockets_created in *;
  rewrite ?List.filter_app, ?length_app in *;
  cbn [List.filter is_interval is_new_socket length] in *; lia.

Lemma handle_intervals (ev : event) :
  inv (fun w => intervals (trace w) = sockets_created (trace w)) (handle ev).
Proof.
  apply (inv_handle (fun w => intervals (trace w) = sockets_created (trace w))
           (fun _ => True)).
  - intros i t a _ w HP. exec; count_trace.
  - intros w HP _. exec; count_trace.
  - intros p pc w _ HP. exact HP.
  - intros w HP. split; [exact HP | exact I].
  - intros p w HP. split; [cbn; count_trace|]. apply Forall_forall. intros; exact I.
  - intros a w HP. exact HP.
  - intros ev' Hev. destruct ev'; try discriminate Hev; intros w HP; exec; count_trace.
Qed.

(** X9. A ping interval is set with every socket and none is ever
    cleared: in every state a connection gets into, as many intervals
    were set as sockets were created. *)
Theorem interval_per_socket (w : World) :
  reachable w -> intervals (trace w) = sockets_created (trace w).
Proof.
  intros (address & o & me & others & time & es & ->).
  apply (inv_events (fun w => intervals (trace w) = sockets_created (trace w)));
    [exact handle_intervals|].
  unfold create. exec; reflexivity.
Qed.

(** ** The HTTP binding *)

Ltac solve_fetch_only :=
  repeat apply conj; cbn; try assumption; try reflexivity; try congruence;
  repeat (apply Forall_app; split; [|repeat constructor]); try assumption.

Lemma executor_fetch_only (others : gset nat) (i : Z) (t : string) (a : json) :
  inv (fetch_only others) (executor JSON_stringify i t a).
Proof.
  intros w (Hk & Hs & Ho & Hl & Hc & Ht). unfold fetch_only.
  unfold executor, Metacom_send, HttpTransport_send. unfold_monad. cbn.
  rewrite Hk. cbn. solve_fetch_only.
Qed.

Lemma open_fetch_only (others : gset nat) : inv (fetch_only others) open.
Proof.
  intros w (Hk & Hs & Ho & Hl & Hc & Ht). unfold fetch_only.
  unfold open, HttpTransport_open. unfold_monad. cbn.
  rewrite Hk. cbn. solve_fetch_only.
Qed.

Lemma scaffold_fetch_only (others : gset nat) (iname : string) (ver : option string)
    (methodName : string) (args : option json) :
  inv (fetch_only others) (scaffold JSON_stringify iname ver methodName args).
Proof.
  intros w HP. unfold scaffold. unfold read at 1. unfold bind at 1. cbn beta iota.
  rewrite bind_update_eq.
  pose proof HP as (Hk & Hs & Ho & Hl & Hc & Ht).
  cbn [id]. rewrite Ho.
  set (w1 := set_this _ w).
  assert (HP1 : fetch_only others w1) by (subst w1; solve_fetch_only).
  clearbody w1. clear - HP1.
  by_inv. apply inv_bind; [|intros; apply inv_ret].
  intros w2 HP2. unfold call_connected. unfold read at 1. unfold bind at 1. cbn beta iota.
  cbn [id]. destruct (connected (this w2)).
  - by_inv. apply inv_bind; [apply executor_fetch_only | intros; apply inv_ret].
  - unfold bind at 1. pose proof (open_fetch_only others w2 HP2) as HP'.
    assert (Hr : fst (open w2) = Ok Resolved).
    { destruct HP2 as (Hk & _). unfold open, HttpTransport_open. unfold_monad. cbn.
      rewrite Hk. reflexivity. }
    destruct (open w2) as [r w']. cbn in Hr, HP'. subst r.
    by_inv. apply inv_bind; [apply executor_fetch_only | intros; apply inv_ret].
Qed.

Lemma handle_fetch_only (others : gset nat) (ev : event) :
  inv (fetch_only others) (handle ev).
Proof.
  destruct ev;
    lazymatch goal with
    | |- inv _ (handle (UserCall _ _ _ _)) =>
        unfold handle; apply inv_bind; [apply scaffold_fetch_only | intros; apply inv_ret]
    | |- inv _ (handle (UserLoaded _ _)) =>
        unfold handle, load_reply;
        apply inv_bind; [intros w HP; unfold_monad; exact HP | intros available];
        apply inv_load_each; intros a w HP; exact HP
    | |- inv _ (handle (UserOpen)) =>
        unfold handle; apply inv_bind; [apply open_fetch_only | intros; apply inv_ret]
    | |- _ =>
        intros w (Hk & Hs & Ho & Hl & Hc & Ht); unfold fetch_only;
        unfold handle, on_socket; rewrite ?bind_inspect_eq, ?Hl, ?dom_empty_L, ?lookup_empty;
        rewrite ?bool_decide_eq_false_2 by apply not_elem_of_empty;
        try solve [solve_fetch_only]
    end.
  all: exec; try congruence; solve_fetch_only.
Qed.


(** X10. A connection of the HTTP binding never has a socket or a
    connect operation in flight; it never enters or leaves the set of
    registered connections, so the online handler passes it by; and it
    never creates, closes or writes to a socket, sets no ping interval
    and arms no reconnection timer. *)
Theorem http_binding_is_socketless (address : string) (o : options) (me : nat)
    (others : gset nat) (time : Z) (es : list event) :
  String.prefix "ws" address = false ->
  let w := run es (create address o me others time) in
  kind (this w) = Http /\
  socket (this w) = None /\
  opening (this w) = None /\
  connections w = others /\
  Forall (fun e => uses_socket e = false) (trace w).
Proof.
  intros Hws w.
  assert (H : fetch_only others w).
  { subst w. apply (inv_events (fetch_only others)); [apply handle_fetch_only|].
    unfold create. rewrite Hws. apply open_fetch_only.
    repeat apply conj; cbn; try reflexivity. constructor. }
  destruct H as (Hk & Hs & Ho & Hl & Hc & Ht). auto 10.
Qed.

(** ** The socket binding *)

Ltac solve_registered :=
  repeat apply conj; cbn; try assumption; try congruence; try tauto;
  try (intros; reflexivity);
  try (intros; apply elem_of_union_l, elem_of_singleton_2; reflexivity);
  try discriminate;
  try (intros [_ Hn]%elem_of_difference; exfalso; apply Hn, elem_of_singleton_2; reflexivity).

Lemma handle_registered (ev : event) : inv registered_while_active (handle ev).
Proof.
  apply (inv_handle registered_while_active (fun _ => True)).
  - intros i t a _ w [Hk Hiff]. unfold registered_while_active. exec; solve_registered.
  - intros w [Hk Hiff] _. unfold registered_while_active. exec; solve_registered.
  - intros p pc w _ HP. exact HP.
  - intros w HP. split; [exact HP | exact I].
  - intros p w HP. split; [exact HP|]. apply Forall_forall. intros; exact I.
  - intros a w HP. exact HP.
  - intros ev' Hev. destruct ev'; try discriminate Hev; intros w [Hk Hiff];
      unfold registered_while_active; exec; solve_registered;
      intros Hin; apply Hiff in Hin; discriminate Hin.
Qed.

(** X11. A connection of the socket binding is in the set of registered
    connections exactly while it is active, so the online handler calls
    [open()] on it exactly when it is active and not connected. *)
Theorem online_reopens_active (address : string) (o : options) (me : nat)
    (others : gset nat) (time : Z) (es : list event) :
  String.prefix "ws" address = true ->
  let w := run es (create address o me others time) in
  (active (this w) = true <-> self w ∈ connections w) /\
  opens (trace (step Online w)) =
    (opens (trace w) + if active (this w) && negb (connected (this w)) then 1 else 0)%nat.
Proof.
  intros Hws w.
  assert (H : registered_while_active w).
  { subst w. apply (inv_events registered_while_active); [exact handle_registered|].
    unfold create. rewrite Hws. unfold registered_while_active. exec; solve_registered. }
  clearbody w. destruct H as [Hk Hiff]. split; [exact Hiff|].
  unfold step, handle, on_online. rewrite bind_inspect_eq.
  destruct (active (this w)) eqn:Ha.
  - rewrite bool_decide_eq_true_2 by (apply Hiff; reflexivity).
    unfold open. unfold_monad. cbn.
    destruct (connected (this w)) eqn:Hc; cbn; [lia|]. rewrite Hk.
    unfold WebsocketTransport_open. unfold_monad. cbn.
    destruct (opening (this w)); cbn; rewrite ?Hc; cbn;
      repeat (rewrite opens_snoc; cbn [is_open_call String.eqb Ascii.eqb Bool.eqb]); lia.
  - rewrite bool_decide_eq_false_2; [cbn; lia|].
    intros Hin. apply Hiff in Hin. discriminate Hin.
Qed.

End ReachableFacts.

(** * Calls *)

Section CallFacts.
Variable ID_LENGTH : nat.
Variable JSON_parse : string -> option json.
Variable JSON_stringify : json -> string.

Local Abbreviation handle := (handle ID_LENGTH JSON_parse JSON_stringify).
Local Abbreviation step := (step ID_LENGTH JSON_parse JSON_stringify).
Local Abbreviation run := (run ID_LENGTH JSON_parse JSON_stringify).
Local Abbreviation reachable := (reachable ID_LENGTH JSON_parse JSON_stringify).
Local Abbreviation inv_handle := (inv_handle ID_LENGTH JSON_parse JSON_stringify).
Local Abbreviation inv_events := (inv_events ID_LENGTH JSON_parse JSON_stringify).

Ltac solve_connecting :=
  repeat apply conj; cbn; try assumption; try congruence; try tauto;
  try (intros; reflexivity); try (intros [? ?]; congruence); auto;
  try (intros Hs;
       match goal with
       | Ho : is_Some _ -> _ |- _ => apply Ho in Hs; congruence
       end);
  try (intros [? Hs];
       match goal with
       | Hh : _ -> opening _ = None |- _ => rewrite Hh in Hs by congruence; discriminate Hs
       end).

Lemma handle_connecting (ev : event) : inv connecting_or_connected (handle ev).
Proof.
  apply (inv_handle connecting_or_connected (fun _ => True)).
  - intros i t a _ w [Hh Ho]. unfold connecting_or_connected. exec; solve_connecting.
  - intros w [Hh Ho] _. unfold connecting_or_connected. exec; solve_connecting.
  - intros p pc w _ HP. exact HP.
  - intros w HP. split; [exact HP | exact I].
  - intros p w [Hh Ho]. split; [solve_connecting|]. apply Forall_forall. intros; exact I.
  - intros a w HP. exact HP.
  - intros ev' Hev. destruct ev'; try discriminate Hev; intros w [Hh Ho];
      unfold connecting_or_connected; exec; solve_connecting.
Qed.

Lemma sent_app (t u : list effect) : sent (t ++ u) = sent t ++ sent u.
Proof. apply omap_app. Qed.

Lemma reachable_connecting (w : World) : reachable w -> connecting_or_connected w.
Proof.
  intros (address & o & me & others & time & es & ->).
  apply (inv_events connecting_or_connected); [exact handle_connecting|].
  unfold create, connecting_or_connected.
  destruct (String.prefix "ws" address); exec; solve_connecting.
Qed.

(** X12. In every state a connection gets into, a call on a connected
    connection - of the HTTP binding, or of the socket binding with its
    socket - is not suspended: it takes the next call id, is registered
    under it with its timer armed, and exactly one packet goes to the
    wire, holding the id under the key call and, under the key
    interface/method (interface.version/method when a version is given),
    the arguments, or the empty object when there are none. *)
Theorem connected_call_goes_out (w : World) (iname : string) (ver : option string)
    (methodName : string) (args : option json) :
  reachable w ->
  connected (this w) = true ->
  kind (this w) = Http \/ is_Some (socket (this w)) ->
  let id := callId (this w) + 1 in
  let promise := fresh w in
  let packet := call_packet id (call_target iname ver methodName) args in
  exists w',
    scaffold JSON_stringify iname ver methodName args w = (Ok (id, Some promise), w') /\
    calls (this w') = <[num id := promise]> (calls (this w)) /\
    parked w' = parked w /\
    In (SetTimeout (CallTimeout id promise) (callTimeout (this w))) (trace w') /\
    sent (trace w') = sent (trace w) ++ [Text (JSON_stringify packet)] /\
    lastActivity (this w') = clock w.
Proof.
  intros Hreach Hc Hcase id promise packet.
  destruct (reachable_connecting w Hreach) as [_ Ho].
  assert (Hopening : opening (this w) = None).
  { destruct (opening (this w)) as [p|] eqn:Hp; [|reflexivity].
    rewrite Ho in Hc by eauto. discriminate Hc. }
  subst id promise packet. unfold call_packet, call_target.
  unfold scaffold, call_connected, executor, Metacom_send,
    WebsocketTransport_send, HttpTransport_send.
  unfold_monad. cbn. rewrite Hopening. cbn. rewrite Hc. cbn.
  destruct Hcase as [Hk | [sock Hs]].
  - rewrite Hk. cbn.
    eexists; repeat apply conj; try reflexivity; cbn;
      rewrite ?sent_app; cbn; rewrite ?app_nil_r; try reflexivity;
      rewrite ?in_app_iff; cbn; tauto.
  - destruct (kind (this w)); cbn; rewrite ?Hc, ?Hs; cbn;
      eexists; repeat apply conj; try reflexivity; cbn;
      rewrite ?sent_app; cbn; rewrite ?app_nil_r; try reflexivity;
      rewrite ?in_app_iff; cbn; tauto.
Qed.

(** ** Suspended calls *)

Lemma step_keeps_suspended (p : nat) (pc : parked_call) (ev : event) (w : World) :
  In (p, pc) (parked w) ->
  (forall sock, ev = SocketOpened sock -> listeners w !! sock <> Some p) ->
  In (p, pc) (parked (step ev w)).
Proof.
  intros Hin Hev. unfold step.
  set (P := fun w => In (p, pc) (parked w)).
  assert (P_executor : forall i t a, True -> inv P (executor JSON_stringify i t a)).
  { intros i t a _ w' HP. unfold P in *. exec; exact HP. }
  assert (P_open : forall w', P w' -> connected (this w') = false -> P (snd (open w'))).
  { intros w' HP _. unfold P in *. exec; exact HP. }
  assert (P_park : forall q qc w',
            True -> P w' -> P (set_parked (parked w' ++ [(q, qc)]) w')).
  { intros q qc w' _ HP. unfold P in *. cbn. apply in_or_app. left. exact HP. }
  assert (P_next : forall w', P w' ->
            P (set_this (set_callId (callId (this w') + 1) (this w')) w') /\ True).
  { intros w' HP. split; [exact HP | exact I]. }
  revert Hin. change (P w -> P (snd (handle ev w))).
  destruct ev;
    lazymatch goal with
    | |- _ -> P (snd (handle (SocketOpened _) _)) => idtac
    | |- _ -> P (snd (handle ?e _)) =>
        clear Hev; revert w; change (inv P (handle e))
    end;
    lazymatch goal with
    | |- _ -> P (snd (handle (SocketOpened _) _)) => idtac
    | |- inv _ (handle (UserCall _ _ _ _)) =>
        unfold handle; apply inv_bind; [|intros; apply inv_ret];
        exact (inv_scaffold JSON_stringify P (fun _ => True)
                 P_executor P_open P_park P_next _ _ _ _)
    | |- inv _ (handle (UserLoaded _ _)) =>
        unfold handle, load_reply;
        apply inv_bind; [intros w' HP; unfold_monad; exact HP | intros available];
        apply inv_load_each; intros a w' HP; exact HP
    | |- _ => intros w HP; unfold P in *; exec; exact HP
    end.
  intros HP. unfold handle. rewrite bind_inspect_eq.
  destruct (listeners w !! sock) as [q|] eqn:Hq; [|exact HP].
  assert (Hne : q <> p) by (intros ->; exact (Hev sock eq_refl Hq)).
  unfold on_socket_open, settle. unfold emit, log.
  unfold bind at 1. unfold update at 1. cbn beta iota.
  unfold bind at 1. unfold update at 1. cbn beta iota.
  unfold bind at 1. unfold modify at 1. cbn beta iota.
  unfold bind at 1. unfold modify at 1. cbn beta iota.
  unfold bind at 1. unfold inspect at 1. cbn beta iota.
  unfold bind at 1. unfold modify at 1. cbn beta iota.
  refine (inv_resume_all JSON_stringify P (fun _ => True) P_executor P_open P_park _ _ _ _).
  - apply Forall_forall. intros; exact I.
  - unfold P in *. cbn. apply List.filter_In. split; [exact HP|].
    cbn. apply negb_true_iff, Nat.eqb_neq. congruence.
Qed.

(** X13. A call suspended until the connection opens has no entry in the
    registry and no timer: when a timer for its id fires, nothing
    happens. Nothing but the open event of the socket whose connect
    operation the call waits for lets it go on - no reply, no timer, and
    not the close event of that socket either. *)
Theorem suspended_call_waits (w : World) (p : nat) (pc : parked_call) :
  reachable w ->
  In (p, pc) (parked w) ->
  calls (this w) !! num (pc_callId pc) = None /\
  (forall q, step (CallTimer (pc_callId pc) q) w = w) /\
  (forall ev,
     (forall sock, ev = SocketOpened sock -> listeners w !! sock <> Some p) ->
     In (p, pc) (parked (step ev w))).
Proof.
  intros Hreach Hin.
  assert (Hnone : calls (this w) !! num (pc_callId pc) = None).
  { destruct (reachable_well_formed ID_LENGTH JSON_parse JSON_stringify w Hreach)
      as (_ & Hall & _).
    cbn in Hall. rewrite Forall_forall in Hall.
    apply (Hall (pc_callId pc)). unfold parked_ids.
    apply list_elem_of_fmap. exists (p, pc). split; [reflexivity|].
    apply list_elem_of_In, Hin. }
  split; [exact Hnone|]. split.
  - intros q. unfold step, handle, on_call_timer. unfold_monad. cbn.
    rewrite Hnone. reflexivity.
  - intros ev Hev. apply step_keeps_suspended; assumption.
Qed.

(** ** Calls made while the socket is opening *)

Lemma calls_are_suspended (p : nat) (rs : list request) (w : World) :
  opening (this w) = Some p ->
  let w1 := run (call_event <$> rs) w in
  parked w1 = parked w ++ suspended p (callId (this w) + 1) rs /\
  trace w1 = trace w /\
  calls (this w1) = calls (this w) /\
  kind (this w1) = kind (this w) /\
  socket (this w1) = socket (this w) /\
  listeners w1 = listeners w /\
  lastActivity (this w1) = lastActivity (this w).
Proof.
  revert w. induction rs as [|[[[iname ver] methodName] args] rs IH]; intros w Hp; cbn zeta.
  - cbn. rewrite app_nil_r. auto 10.
  - change (run (call_event <$> (iname, ver, methodName, args) :: rs) w)
      with (run (call_event <$> rs) (step (UserCall iname ver methodName args) w)).
    set (w' := step (UserCall iname ver methodName args) w).
    assert (Hw' : w' = set_parked (parked w ++
                         [(p, {| pc_callId := callId (this w) + 1;
                                 pc_target := call_target iname ver methodName;
                                 pc_args := default (JObj []) args;
                                 pc_stage := AwaitOpening |})])
                        (set_this (set_callId (callId (this w) + 1) (this w)) w)).
    { subst w'. unfold step, handle, scaffold, park. unfold_monad. cbn. rewrite Hp. reflexivity. }
    clearbody w'. subst w'.
    match goal with |- context [run _ ?w2] => specialize (IH w2 Hp) end.
    cbn zeta in IH. cbn [this set_this set_parked callId set_callId parked] in IH.
    destruct IH as (H1 & H2 & H3 & H4 & H5 & H6 & H7).
    rewrite H1, H2, H3, H4, H5, H6, H7. cbn. rewrite <- app_assoc. auto 10.
Qed.

Lemma resumed_calls_go_out (p sock : nat) (rs : list request) (first : Z) (w : World) :
  kind (this w) = Ws ->
  connected (this w) = true ->
  socket (this w) = Some sock ->
  let w' := snd (resume_all JSON_stringify (snd <$> suspended p first rs) w) in
  sent (trace w') =
    sent (trace w) ++ ((fun packet => Text (JSON_stringify packet)) <$> call_packets first rs) /\
  parked w' = parked w.
Proof.
  revert first w.
  induction rs as [|[[[iname ver] methodName] args] rs IH]; intros first w Hk Hc Hs w'.
  - subst w'. cbn. rewrite app_nil_r. auto.
  - set (w2 := logged [SocketSend sock
                         (Text (JSON_stringify
                            (call_packet first (call_target iname ver methodName) args)))]
                 (touched
                    (set_this (set_calls (<[num first := fresh w]> (calls (this w))) (this w))
                       (logged [SetTimeout (CallTimeout first (fresh w)) (callTimeout (this w))]
                          (set_fresh (S (fresh w)) w))))).
    assert (Hw' : w' = snd (resume_all JSON_stringify
                              (snd <$> suspended p (first + 1) rs) w2)).
    { subst w' w2. cbn [suspended fmap list_fmap snd resume_all].
      unfold bind at 1.
      unfold resume, call_connected, executor, Metacom_send, WebsocketTransport_send.
      unfold_monad. cbn. rewrite Hc. cbn. rewrite Hk. cbn. rewrite Hc, Hs. reflexivity. }
    clearbody w'. subst w'.
    destruct (IH (first + 1) w2 Hk Hc Hs) as [H1 H2].
    split.
    + rewrite H1. subst w2. cbn [trace logged touched set_this set_trace set_fresh].
      rewrite !sent_app. cbn. rewrite app_nil_r, <- app_assoc. reflexivity.
    + rewrite H2. reflexivity.
Qed.

Lemma suspended_waiting (p : nat) (first : Z) (rs : list request) :
  List.filter (fun x => Nat.eqb (fst x) p) (suspended p first rs) = suspended p first rs /\
  List.filter (fun x => negb (Nat.eqb (fst x) p)) (suspended p first rs) = [] /\
  List.filter awaits_opening (suspended p first rs) = suspended p first rs /\
  List.filter (fun x => negb (awaits_opening x)) (suspended p first rs) = [].
Proof.
  revert first. induction rs as [|[[[iname ver] methodName] args] rs IH]; intros first.
  - repeat split; reflexivity.
  - destruct (IH (first + 1)) as (H1 & H2 & H3 & H4). cbn. rewrite Nat.eqb_refl. cbn.
    rewrite H1, H2, H3, H4. repeat split; reflexivity.
Qed.

(** X14. Calls made while the socket is opening are held back, not
    lost: nothing is sent and nothing registered until the socket opens,
    and when it does the packets of all of them go out in the order in
    which the calls were made, with the ids they were given then. *)
Theorem queued_calls_go_out_in_order (w : World) (p sock : nat) (rs : list request) :
  kind (this w) = Ws ->
  opening (this w) = Some p ->
  listeners w !! sock = Some p ->
  socket (this w) = Some sock ->
  parked w = [] ->
  let w1 := run (call_event <$> rs) w in
  let w2 := step (SocketOpened sock) w1 in
  sent (trace w1) = sent (trace w) /\
  calls (this w1) = calls (this w) /\
  sent (trace w2) =
    sent (trace w) ++
    ((fun packet => Text (JSON_stringify packet)) <$> call_packets (callId (this w) + 1) rs) /\
  parked w2 = [].
Proof.
  intros Hk Hp Hl Hs Hparked w1 w2.
  destruct (calls_are_suspended p rs w Hp) as (H1 & H2 & H3 & H4 & H5 & H6 & _).
  fold w1 in H1, H2, H3, H4, H5, H6. rewrite Hparked in H1. cbn [app] in H1.
  split; [rewrite H2; reflexivity|]. split; [exact H3|].
  destruct (suspended_waiting p (callId (this w) + 1) rs) as (Hyes & Hno & Hfirst & Hlast).
  set (w3 := set_parked []
               (logged [Resolve p None]
                  (logged [Emit "open"]
                     (set_this (set_connected true (set_opening None (this w1))) w1)))).
  assert (Hw2 : w2 = snd (resume_all JSON_stringify
                            (snd <$> suspended p (callId (this w) + 1) rs) w3)).
  { subst w2 w3. unfold step, handle. rewrite bind_inspect_eq, H6, Hl.
    unfold on_socket_open, settle. unfold_monad. cbn.
    rewrite H1, Hyes, Hno, Hfirst, Hlast, app_nil_r. reflexivity. }
  clearbody w2. subst w2.
  assert (Hk3 : kind (this w3) = Ws) by (subst w3; cbn; congruence).
  assert (Hs3 : socket (this w3) = Some sock) by (subst w3; cbn; congruence).
  destruct (resumed_calls_go_out p sock rs (callId (this w) + 1) w3 Hk3 eq_refl Hs3)
    as [Hsent Hpark].
  split.
  - rewrite Hsent. subst w3. cbn [trace logged set_parked set_trace set_this].
    rewrite !sent_app, H2. cbn. rewrite !app_nil_r. reflexivity.
  - rewrite Hpark. reflexivity.
Qed.

End CallFacts.

(** ** The call that opens the connection *)

Section OpeningCall.
Variable ID_LENGTH : nat.
Variable JSON_parse : string -> option json.
Variable JSON_stringify : json -> string.

Local Abbreviation handle := (handle ID_LENGTH JSON_parse JSON_stringify).
Local Abbreviation step := (step ID_LENGTH JSON_parse JSON_stringify).
Local Abbreviation run := (run ID_LENGTH JSON_parse JSON_stringify).

Lemma resume_all_app (pcs pcs' : list parked_call) (w : World) :
  resume_all JSON_stringify (pcs ++ pcs') w =
    resume_all JSON_stringify pcs' (snd (resume_all JSON_stringify pcs w)).
Proof.
  revert w. induction pcs as [|pc pcs IH]; intros w; [reflexivity|].
  cbn [app resume_all]. unfold bind.
  assert (Hok : fst (resume JSON_stringify pc w) = Ok tt).
  { unfold resume.
    destruct (pc_stage pc); unfold bind, ret.
    - destruct (call_connected_returns JSON_stringify (pc_callId pc) (pc_target pc)
                  (pc_args pc) w) as (r & w' & -> & _). reflexivity.
    - destruct (executor_returns JSON_stringify (pc_callId pc) (pc_target pc)
                  (pc_args pc) w) as (w' & -> & _). reflexivity. }
  destruct (resume JSON_stringify pc w) as [[[]|e] w1]; [|discriminate Hok].
  apply IH.
Qed.

Lemma resumed_calls_keep_socket (p : nat) (rs : list request) (first : Z) (w : World) :
  let w' := snd (resume_all JSON_stringify (snd <$> suspended p first rs) w) in
  connected (this w) = true ->
  kind (this w') = kind (this w) /\
  connected (this w') = connected (this w) /\
  socket (this w') = socket (this w).
Proof.
  revert first w.
  induction rs as [|[[[iname ver] methodName] args] rs IH]; intros first w w' Hc.
  - subst w'. cbn. auto.
  - set (pc := {| pc_callId := first; pc_target := call_target iname ver methodName;
                  pc_args := default (JObj []) args; pc_stage := AwaitOpening |}).
    assert (Hstep : exists w1, resume JSON_stringify pc w = (Ok tt, w1) /\
              kind (this w1) = kind (this w) /\ connected (this w1) = connected (this w) /\
              socket (this w1) = socket (this w)).
    { unfold resume, call_connected, executor, Metacom_send, WebsocketTransport_send,
        HttpTransport_send.
      unfold_monad. cbn. rewrite Hc. cbn.
      destruct (kind (this w)) eqn:Hk; cbn; rewrite ?Hc; cbn;
        [destruct (socket (this w)) eqn:Hs; cbn|];
        eexists; repeat apply conj; try reflexivity; cbn; congruence. }
    destruct Hstep as (w1 & Hr & Hk1 & Hc1 & Hs1).
    assert (Hw' : w' = snd (resume_all JSON_stringify
                              (snd <$> suspended p (first + 1) rs) w1)).
    { subst w'. cbn [suspended fmap list_fmap snd resume_all].
      fold pc. unfold bind at 1. rewrite Hr. reflexivity. }
    clearbody w'. subst w'.
    destruct (IH (first + 1) w1) as (H1 & H2 & H3); [congruence|].
    repeat split; congruence.
Qed.

(** X24. The call that opens the connection goes last. On a connection
    of the socket binding that is neither connected nor connecting, a call
    opens a socket and waits for what [open()] returned; the calls made
    after it while the socket opens wait for [opening] itself. Nothing is
    sent until the socket opens, and then the packets of the later calls
    go out first, in the order of the calls, and the packet of the call
    that opened the connection after them. *)
Theorem opening_call_goes_last (w : World) (iname : string) (ver : option string)
    (methodName : string) (args : option json) (rs : list request) :
  kind (this w) = Ws ->
  opening (this w) = None ->
  connected (this w) = false ->
  parked w = [] ->
  let w1 := run (call_event <$> (iname, ver, methodName, args) :: rs) w in
  let w2 := step (SocketOpened (fresh w)) w1 in
  sent (trace w1) = sent (trace w) /\
  sent (trace w2) =
    sent (trace w) ++
    ((fun packet => Text (JSON_stringify packet)) <$>
       call_packets (callId (this w) + 2) rs ++
       [call_packet (callId (this w) + 1) (call_target iname ver methodName) args]).
Proof.
  intros Hk Ho Hc Hparked w1 w2.
  set (p := S (fresh w)).
  set (pc := {| pc_callId := callId (this w) + 1;
                pc_target := call_target iname ver methodName;
                pc_args := default (JObj []) args; pc_stage := AwaitOpen |}).
  set (w0 := step (UserCall iname ver methodName args) w).
  assert (H0 : parked w0 = [(p, pc)] /\ opening (this w0) = Some p /\
               listeners w0 !! fresh w = Some p /\ socket (this w0) = Some (fresh w) /\
               kind (this w0) = Ws /\ sent (trace w0) = sent (trace w) /\
               callId (this w0) + 1 = callId (this w) + 2).
  { subst w0 p pc.
    unfold step, handle, scaffold, call_connected, open, WebsocketTransport_open, park.
    unfold_monad. cbn. rewrite Ho. cbn. rewrite Hc. cbn. rewrite Hk. cbn.
    rewrite Ho. cbn. rewrite Hc. cbn. rewrite Hparked.
    repeat apply conj;
      first [ reflexivity | exact Hk | apply lookup_insert_eq | lia
            | rewrite !sent_app; cbn; rewrite ?app_nil_r; reflexivity ]. }
  destruct H0 as (Hp0 & Ho0 & Hl0 & Hs0 & Hk0 & Hsent0 & Hid0).
  assert (Hw1 : w1 = run (call_event <$> rs) w0) by reflexivity.
  clearbody w0 w1. subst w1.
  destruct (calls_are_suspended ID_LENGTH JSON_parse JSON_stringify p rs w0 Ho0)
    as (H1 & H2 & _ & H4 & H5 & H6 & _).
  rewrite Hp0, Hid0 in H1. set (w1 := run (call_event <$> rs) w0) in *.
  split; [rewrite H2; exact Hsent0|].
  destruct (suspended_waiting p (callId (this w) + 2) rs) as (Hyes & Hno & Hfirst & Hlast).
  set (w3 := set_parked []
               (logged [Resolve p None]
                  (logged [Emit "open"]
                     (set_this (set_connected true (set_opening None (this w1))) w1)))).
  assert (Hw2 : w2 = snd (resume_all JSON_stringify
                            ((snd <$> suspended p (callId (this w) + 2) rs) ++ [pc]) w3)).
  { subst w2 w3. unfold step, handle. rewrite bind_inspect_eq, H6, Hl0.
    unfold on_socket_open, settle. unfold_monad. cbn. rewrite H1. cbn.
    fold p. rewrite Nat.eqb_refl. cbn. rewrite Hyes, Hno, Hfirst, Hlast.
    rewrite fmap_app. reflexivity. }
  clearbody w2. subst w2. rewrite resume_all_app.
  assert (Hk3 : kind (this w3) = Ws) by (subst w3; cbn; congruence).
  assert (Hs3 : socket (this w3) = Some (fresh w)) by (subst w3; cbn; congruence).
  assert (Hc3 : connected (this w3) = true) by reflexivity.
  destruct (resumed_calls_go_out JSON_stringify p (fresh w) rs (callId (this w) + 2) w3
              Hk3 Hc3 Hs3) as [Hsent _].
  destruct (resumed_calls_keep_socket p rs (callId (this w) + 2) w3 Hc3)
    as (Hk4 & Hc4 & Hs4).
  set (w4 := snd (resume_all JSON_stringify
                    (snd <$> suspended p (callId (this w) + 2) rs) w3)) in *.
  rewrite Hk3 in Hk4. rewrite Hc3 in Hc4. rewrite Hs3 in Hs4.
  assert (Hlast' : sent (trace (snd (resume_all JSON_stringify [pc] w4))) =
                   sent (trace w4) ++
                   [Text (JSON_stringify
                            (call_packet (callId (this w) + 1)
                               (call_target iname ver methodName) args))]).
  { clearbody w4. subst pc. cbn [resume_all]. unfold resume. cbn [pc_stage].
    unfold executor, Metacom_send, WebsocketTransport_send.
    unfold_monad. cbn. rewrite Hk4. cbn. rewrite Hc4. cbn. rewrite Hs4. cbn.
    rewrite !sent_app. cbn. rewrite !app_nil_r. reflexivity. }
  rewrite Hlast', Hsent. subst w3. cbn [trace logged set_parked set_trace set_this].
  rewrite !sent_app, H2, Hsent0. cbn. rewrite !app_nil_r.
  rewrite fmap_app, <- !app_assoc. reflexivity.
Qed.

End OpeningCall.

(** * Opening, closing and keeping alive *)

Section LifecycleFacts.
Variable ID_LENGTH : nat.
Variable JSON_parse : string -> option json.
Variable JSON_stringify : json -> string.

Local Abbreviation handle := (handle ID_LENGTH JSON_parse JSON_stringify).
Local Abbreviation step := (step ID_LENGTH JSON_parse JSON_stringify).
Local Abbreviation run := (run ID_LENGTH JSON_parse JSON_stringify).


(** X16. [close()] rejects nothing and forgets nothing: the registry,
    the suspended calls and the streams are as before. A second
    [close()] changes nothing at all, so the socket is closed once. *)
Theorem close_is_idempotent (w : World) :
  let w' := step UserClose w in
  active (this w') = false /\
  calls (this w') = calls (this w) /\
  parked w' = parked w /\
  streams (this w') = streams (this w) /\
  step UserClose w' = w'.
Proof.
  assert (Hset : connections w ∖ {[self w]} ∖ {[self w]} = connections w ∖ {[self w]})
    by (apply set_eq; intros x; rewrite !elem_of_difference; tauto).
  cbn zeta. unfold step, handle, close, WebsocketTransport_close, HttpTransport_close.
  unfold_monad. cbn.
  destruct (kind (this w)) eqn:Hk; cbn.
  - destruct (socket (this w)) eqn:Hs; cbn; rewrite ?Hk; cbn; rewrite ?Hs; cbn;
      repeat apply conj; try reflexivity;
      unfold set_this, set_trace, set_connections; cbn; rewrite Hset; reflexivity.
  - rewrite Hk. cbn. repeat apply conj; reflexivity.
Qed.

(** X17. Between [close()] and the close event of the socket the
    connection of the socket binding still counts as connected but has no
    socket: [send] throws a TypeError, and a call made then is registered
    and rejected at once with that TypeError, without anything reaching
    the wire; its entry stays in the registry for the timer. *)
Theorem call_after_close_is_rejected (w : World) (iname : string) (ver : option string)
    (methodName : string) (args : option json) (data : wire_unit) :
  kind (this w) = Ws ->
  connected (this w) = true ->
  opening (this w) = None ->
  let w1 := step UserClose w in
  let w2 := step (UserCall iname ver methodName args) w1 in
  let id := callId (this w) + 1 in
  Metacom_send data w1 = (Throw TypeError, touched w1) /\
  trace w2 = trace w1 ++ [SetTimeout (CallTimeout id (fresh w)) (callTimeout (this w));
                          Reject (fresh w) TypeError] /\
  calls (this w2) = <[num id := fresh w]> (calls (this w)) /\
  active (this w2) = false.
Proof.
  intros Hk Hc Ho w1 w2 id. subst w1 w2 id.
  unfold step, handle, scaffold, call_connected, executor, close, WebsocketTransport_close,
    Metacom_send, WebsocketTransport_send.
  unfold_monad. cbn. rewrite Hk. cbn.
  destruct (socket (this w)) eqn:Hs; cbn;
    repeat (first [rewrite Hk | rewrite Hc | rewrite Ho | rewrite Hs]; cbn);
    repeat apply conj; try reflexivity; rewrite <- !app_assoc; reflexivity.
Qed.

(** X18. The ping timer sends the heartbeat text, and nothing else,
    exactly when the connection is active, has been idle for longer than
    [pingInterval] and can send; and with a [pingInterval] that is not
    negative a timer that fires again at the same instant does nothing,
    so however many intervals are running they send one heartbeat. *)
Theorem ping_when_idle (w : World) :
  sent (trace (step PingTimer w)) =
    sent (trace w) ++ (if heartbeat_due w then [Text "{}"] else []) /\
  (0 <= pingInterval (this w) ->
   step PingTimer (step PingTimer w) = step PingTimer w).
Proof.
  unfold heartbeat_due, step, handle, on_ping_timer, Metacom_send,
    WebsocketTransport_send, HttpTransport_send.
  unfold_monad. cbn.
  destruct (active (this w)) eqn:Ha; cbn; [|rewrite Ha, app_nil_r; auto].
  destruct (pingInterval (this w) <? clock w - lastActivity (this w)) eqn:Hidle; cbn;
    [|rewrite Ha; cbn; rewrite Hidle, app_nil_r; auto].
  assert (Hnow : forall i : Z, 0 <= i -> (i <? clock w - clock w) = false)
    by (intros i Hi; apply Z.ltb_ge; lia).
  destruct (kind (this w)) eqn:Hk; cbn.
  - destruct (connected (this w)) eqn:Hc; cbn;
      [|rewrite Ha; cbn; rewrite Hidle; cbn; rewrite Hk, Hc, app_nil_r; auto].
    destruct (socket (this w)) eqn:Hs; cbn; rewrite ?sent_app; cbn; rewrite ?app_nil_r;
      (split; [reflexivity|]); intros Hi; rewrite Ha; cbn; rewrite (Hnow _ Hi); reflexivity.
  - rewrite sent_app. cbn. split; [reflexivity|].
    intros Hi. rewrite Ha. cbn. rewrite (Hnow _ Hi). reflexivity.
Qed.

(** X19. After the close event of its socket an active, registered
    connection of the socket binding is reopened once: whether the
    reconnection timer or the online handler comes first, one socket is
    created, and the other call of [open()] finds the connect operation
    in flight. *)
Theorem one_socket_per_reconnect (w : World) (sock : nat) :
  kind (this w) = Ws ->
  active (this w) = true ->
  self w ∈ connections w ->
  sock ∈ dom (listeners w) ->
  let timer_first := run [SocketClosed sock; ReconnectTimer; Online] w in
  let online_first := run [SocketClosed sock; Online; ReconnectTimer] w in
  sockets_created (trace timer_first) = S (sockets_created (trace w)) /\
  sockets_created (trace online_first) = S (sockets_created (trace w)) /\
  socket (this timer_first) = Some (fresh w) /\
  socket (this online_first) = Some (fresh w).
Proof.
  intros Hk Ha Hself Hsock. cbn zeta.
  assert (Hb1 : bool_decide (sock ∈ dom (listeners w)) = true)
    by (apply bool_decide_eq_true_2, Hsock).
  assert (Hb2 : bool_decide (self w ∈ connections w) = true)
    by (apply bool_decide_eq_true_2, Hself).
  assert (Hb3 : bool_decide (self w ∈ {[self w]} ∪ connections w) = true)
    by (apply bool_decide_eq_true_2, elem_of_union_l, elem_of_singleton_2; reflexivity).
  unfold run, fold_left, step, handle, on_socket, on_socket_close, on_reconnect_timer,
    on_online, open, WebsocketTransport_open.
  unfold_monad. cbn.
  repeat (first [rewrite Hb1 | rewrite Hb2 | rewrite Hb3 | rewrite Ha | rewrite Hk]; cbn).
  unfold sockets_created. rewrite !List.filter_app, !length_app. cbn.
  repeat apply conj; try reflexivity; lia.
Qed.

End LifecycleFacts.

(** * Interfaces and outgoing streams *)

(** ** Loading interfaces *)



(** ** Outgoing streams *)

Section InterfaceFacts.
Variable ID_LENGTH : nat.
Variable JSON_parse : string -> option json.
Variable JSON_stringify : json -> string.

Local Abbreviation handle := (handle ID_LENGTH JSON_parse JSON_stringify).
Local Abbreviation step := (step ID_LENGTH JSON_parse JSON_stringify).
Local Abbreviation run := (run ID_LENGTH JSON_parse JSON_stringify).

Lemma send_outcome (data : wire_unit) (w : World) :
  kind (this w) = Http \/ connected (this w) = true /\ is_Some (socket (this w)) ->
  exists w',
    Metacom_send data w = (Ok tt, w') /\
    sent (trace w') = sent (trace w) ++ [data] /\
    this w' = set_lastActivity (clock w) (this w) /\
    clock w' = clock w.
Proof.
  intros Hcase. unfold Metacom_send, WebsocketTransport_send, HttpTransport_send.
  unfold_monad. cbn.
  destruct Hcase as [Hk | [Hc [sock Hs]]].
  - rewrite Hk. cbn. eexists. repeat apply conj; try reflexivity.
    cbn. rewrite sent_app. reflexivity.
  - destruct (kind (this w)); cbn; rewrite ?Hc, ?Hs; cbn;
      eexists; repeat apply conj; try reflexivity; cbn; rewrite sent_app; reflexivity.
Qed.

(** X21. A stream made while the socket binding is not connected is lost
    without a sign: [createStream] takes the next stream id and returns
    the writable although the init packet was dropped, and as long as the
    connection stays unconnected every [write] returns true and [end]
    succeeds, with nothing reaching the wire and nothing logged. *)
Theorem stream_while_disconnected (w : World) (name : string) (size : Z) :
  kind (this w) = Ws ->
  connected (this w) = false ->
  let writable := {| w_id := streamId (this w) + 1; w_name := name; w_size := size;
                     w_finalized := false |} in
  createStream JSON_stringify name size w =
    (Ok writable, set_this (set_streamId (streamId (this w) + 1) (this w)) w) /\
  forall w' chunk,
    kind (this w') = Ws ->
    connected (this w') = false ->
    Writable.write (Transport0 := Metacom_send) ID_LENGTH writable chunk w' = (Ok true, w') /\
    Writable.end_ (Transport0 := Metacom_send) JSON_stringify writable w' =
      (Ok (Writable.finalize writable), w').
Proof.
  intros Hk Hc writable. split.
  - rewrite createStream_unfold. unfold Metacom_send, WebsocketTransport_send.
    unfold_monad. cbn. rewrite Hk. cbn. rewrite Hc. reflexivity.
  - intros w' chunk Hk' Hc'.
    unfold Writable.write, Writable.end_, send, Metacom_send, WebsocketTransport_send.
    unfold_monad. cbn. rewrite Hk'. cbn. rewrite Hc'. split; reflexivity.
Qed.

Lemma upload_chunks_go_out (consumer : MetaWritable) (chunks : list bytes) (w : World) :
  w_finalized consumer = false ->
  kind (this w) = Http \/ connected (this w) = true /\ is_Some (socket (this w)) ->
  exists w',
    upload_chunks ID_LENGTH JSON_parse JSON_stringify consumer
        ((fun chunk => ([], chunk)) <$> chunks) w = (Ok tt, w') /\
    sent (trace w') =
      sent (trace w) ++
      ((fun chunk => Binary (Chunk.encode ID_LENGTH (w_id consumer) chunk)) <$> chunks) /\
    (kind (this w') = Http \/ connected (this w') = true /\ is_Some (socket (this w'))).
Proof.
  intros Hopen. revert w. induction chunks as [|chunk rest IH]; intros w Hcase.
  - exists w. cbn. rewrite app_nil_r. auto.
  - destruct (send_outcome (Binary (Chunk.encode ID_LENGTH (w_id consumer) chunk)) w Hcase)
      as (w1 & Hsend & Hsent & Hthis & _).
    destruct (IH w1) as (w' & Heq & Hsent' & Hcase').
    { rewrite Hthis. exact Hcase. }
    exists w'. split; [|split; [|exact Hcase']].
    + cbn [fmap list_fmap upload_chunks]. unfold bind at 1. unfold modify.
      change (run nil w) with w. cbn beta iota.
      unfold Writable.write. rewrite Hopen. unfold bind at 2. unfold send, Metacom_transport.
      unfold bind at 1. rewrite Hsend. cbn beta iota. unfold ret. exact Heq.
    + rewrite Hsent', Hsent, <- app_assoc. reflexivity.
Qed.

(** X22. On a connection that can send, a blob whose chunks are read
    without anything happening in between is uploaded as the init packet
    of a new stream - named blob when the blob has no name - then one
    frame for each chunk, in the order read, then the end packet; nothing
    else reaches the wire. *)
Theorem upload_sends_blob_in_order (w : World) (blob : Blob) (chunks : list bytes) :
  kind (this w) = Http \/ connected (this w) = true /\ is_Some (socket (this w)) ->
  blob_reads blob = (fun chunk => ([], chunk)) <$> chunks ->
  blob_done blob = [] ->
  let id := streamId (this w) + 1 in
  let name := match blob_name blob with
              | Some s => if String.eqb s EmptyString then "blob" else s
              | None => "blob"
              end in
  exists consumer w1 w2,
    createBlobUploader JSON_stringify blob w = (Ok consumer, w1) /\
    w_id consumer = id /\
    upload ID_LENGTH JSON_parse JSON_stringify consumer blob w1
      = (Ok (Writable.finalize consumer), w2) /\
    sent (trace w2) =
      sent (trace w)
      ++ [Text (JSON_stringify (init_packet id name (blob_size blob)))]
      ++ upload_frames ID_LENGTH JSON_stringify id chunks.
Proof.
  intros Hcase Hreads Hdone id name.
  set (w0 := set_this (set_streamId id (this w)) w).
  assert (Hcase0 : kind (this w0) = Http \/
                   connected (this w0) = true /\ is_Some (socket (this w0)))
    by exact Hcase.
  destruct (send_outcome (Text (JSON_stringify (init_packet id name (blob_size blob)))) w0 Hcase0)
    as (w1 & Hsend & Hsent1 & Hthis1 & _).
  set (consumer := {| w_id := id; w_name := name; w_size := blob_size blob;
                      w_finalized := false |}).
  assert (Hcase1 : kind (this w1) = Http \/
                   connected (this w1) = true /\ is_Some (socket (this w1)))
    by (rewrite Hthis1; exact Hcase0).
  destruct (upload_chunks_go_out consumer chunks w1 eq_refl Hcase1)
    as (w2 & Hchunks & Hsent2 & Hcase2).
  destruct (send_outcome (Writable.status_packet JSON_stringify consumer "end") w2 Hcase2)
    as (w3 & Hend & Hsent3 & _).
  exists consumer, w1, w3. repeat apply conj.
  - unfold createBlobUploader. rewrite createStream_unfold.
    fold id name w0. rewrite Hsend. reflexivity.
  - reflexivity.
  - unfold upload. rewrite Hreads, Hdone. unfold bind at 1. rewrite Hchunks.
    unfold bind at 1. unfold modify. change (run nil w2) with w2. cbn beta iota.
    unfold Writable.end_. cbn [w_finalized consumer]. unfold bind, send, Metacom_transport.
    rewrite Hend. reflexivity.
  - rewrite Hsent3, Hsent2, Hsent1. unfold upload_frames, w0. cbn [trace set_this].
    rewrite <- !app_assoc. reflexivity.
Qed.

End InterfaceFacts.

(** * Frames of registered streams *)

(** X23. A frame is routed by the id in its header. When the stream is
    looked up and the map has one under that id, the payload, as it was
    given to the encoder, is appended to the buffer of that stream, which
    is active from then on, and nothing else changes; only when the
    stream is over already does [binary] throw, with the ProtocolError of
    [push], leaving everything as it was. *)
Theorem frame_reaches_its_stream (ID_LENGTH : nat) (w : World) (id : Z) (payload : bytes)
    (a : nat) (s : MetaReadable) :
  Chunk.valid_id ID_LENGTH id ->
  streams (this w) !! num id = Some a ->
  heap w !! a = Some s ->
  binary ID_LENGTH (Chunk.encode ID_LENGTH id payload) w =
    match r_state s with
    | ENDED | TERMINATED => (Throw ProtocolError, w)
    | INIT | ACTIVE =>
        (Ok tt,
         set_heap (<[a := {| r_id := r_id s; r_name := r_name s; r_size := r_size s;
                             r_state := ACTIVE; r_buffer := r_buffer s ++ [payload] |}]>
                     (heap w)) w)
    end.
Proof.
  intros Hid Hk Hs.
  unfold binary. rewrite ChunkFacts.decode_encode.
  unfold Chunk.valid_id in Hid. rewrite Z.mod_small by exact Hid.
  unfold_monad. cbn. rewrite Hk. cbn. rewrite Hs. cbn.
  unfold Readable.push, Readable.finished. destruct (r_state s); reflexivity.
Qed.

(** ** The further theorems at work on the example states *)

Lemma message_records_receipt_witness :
  message parse "{}" calling = (Ok tt, calling) /\
  lastActivity (this (snd (message parse reply calling))) = clock calling.
Proof.
  split.
  - apply (proj1 (message_records_receipt parse "{}" calling)). reflexivity.
  - apply (proj2 (message_records_receipt parse reply calling)).
    intros H. vm_compute in H. discriminate H.
Defined.

Lemma message_other_values_witness :
  message parse "null" established = (Throw TypeError, touched established) /\
  message parse call_text established = (Ok tt, touched established).
Proof.
  split.
  - assert (H1 : "null" <> "{}") by discriminate.
    assert (H2 : parse "null" = Some JNull) by (vm_compute; reflexivity).
    exact (proj1 (message_other_values parse "null" JNull established H1 H2) eq_refl).
  - assert (H1 : call_text <> "{}") by (intros H; vm_compute in H; discriminate H).
    assert (H2 : parse call_text = Some (JObj [("call", JNum (Int 1)); ("chat/send", JObj [])]))
      by (vm_compute; reflexivity).
    exact (proj1 (proj2 (message_other_values parse call_text _ established H1 H2))
             ["call"; "chat/send"] eq_refl eq_refl).
Defined.

Lemma reply_settles_once_witness :
  message parse error_reply calling =
    (Ok tt,
     logged [Reject 2%nat (MetacomError (Some (JStr "no")) (Some (JNum (Int 404))))]
       (set_this (set_calls (delete (num 1) (calls (this calling))) (this (touched calling)))
          (touched calling))).
Proof.
  assert (H1 : error_reply <> "{}") by (intros H; vm_compute in H; discriminate H).
  assert (H2 : parse error_reply =
               Some (JObj [("callback", JNum (Int 1));
                           ("error", JObj [("message", JStr "no"); ("code", JNum (Int 404))])]))
    by (vm_compute; reflexivity).
  assert (H3 : calls (this calling) !! num 1 = Some 2%nat) by (vm_compute; reflexivity).
  exact (proj1 (reply_settles_once 4 parse stringify calling error_reply _ ["error"]
                  (num 1) 2%nat H1 H2 eq_refl eq_refl eq_refl H3)).
Defined.


Lemma getStream_follows_packets_witness :
  (exists a,
     getStream (Some (JNum (Int 1))) (snd (message parse stream_init established)) =
       (Ok a, snd (message parse stream_init established))) /\
  getStream (Some (JNum (Int 1))) (snd (message parse stream_end receiving)) =
    (Throw (StreamNotInitialized (Some (JNum (Int 1)))),
     snd (message parse stream_end receiving)).
Proof.
  split.
  - assert (H1 : stream_init <> "{}") by (intros H; vm_compute in H; discriminate H).
    assert (H2 : parse stream_init = Some (init_packet 1 "f" 3)) by (vm_compute; reflexivity).
    assert (H3 : streams (this established) !! num 1 = None) by (vm_compute; reflexivity).
    destruct (proj1 (getStream_follows_packets parse established stream_init _
                       ["name"; "size"] (num 1) H1 H2 eq_refl eq_refl eq_refl) eq_refl H3)
      as (a & Ha & _).
    exists a. exact Ha.
  - assert (H1 : stream_end <> "{}") by (intros H; vm_compute in H; discriminate H).
    assert (H2 : parse stream_end =
                 Some (JObj [("stream", JNum (Int 1)); ("status", JStr "end")]))
      by (vm_compute; reflexivity).
    assert (H3 : is_Some (streams (this receiving) !! num 1))
      by (vm_compute; eexists; reflexivity).
    exact (proj2 (getStream_follows_packets parse receiving stream_end _
                    ["status"] (num 1) H1 H2 eq_refl eq_refl eq_refl)
             eq_refl H3 (or_introl eq_refl)).
Defined.

Lemma unissued_reply_is_dropped_witness :
  message parse stray_reply calling = (Ok tt, touched calling) /\
  message parse string_reply calling = (Ok tt, touched calling).
Proof.
  assert (Hc : callId (this calling) = 1) by (vm_compute; reflexivity).
  split.
  - assert (H1 : stray_reply <> "{}") by (intros H; vm_compute in H; discriminate H).
    assert (H2 : parse stray_reply =
                 Some (JObj [("callback", JNum (Int 5)); ("chat/send", JStr "ok")]))
      by (vm_compute; reflexivity).
    apply (unissued_reply_is_dropped 4 parse stringify calling stray_reply _ ["chat/send"]
             calling_reachable H1 H2 eq_refl).
    intros z Hz Heq. rewrite Hc in Hz. cbn in Heq. injection Heq as Heq. lia.
  - assert (H1 : string_reply <> "{}") by (intros H; vm_compute in H; discriminate H).
    assert (H2 : parse string_reply =
                 Some (JObj [("callback", JStr "1"); ("chat/send", JStr "ok")]))
      by (vm_compute; reflexivity).
    apply (unissued_reply_is_dropped 4 parse stringify calling string_reply _ ["chat/send"]
             calling_reachable H1 H2 eq_refl).
    intros z Hz Heq. cbn in Heq. discriminate Heq.
Defined.

Lemma interval_per_socket_witness :
  intervals (trace calling) = sockets_created (trace calling).
Proof. exact (interval_per_socket 4 parse stringify calling calling_reachable). Defined.

Lemma http_binding_is_socketless_witness :
  let w := run 4 parse stringify [UserCall "chat" None "send" None; UserClose; Online]
             http_world in
  kind (this w) = Http /\
  socket (this w) = None /\
  opening (this w) = None /\
  connections w = ∅ /\
  Forall (fun e => uses_socket e = false) (trace w).
Proof.
  exact (http_binding_is_socketless 4 parse stringify "https://example.com/api"
           example_options 8 ∅ 1000 [UserCall "chat" None "send" None; UserClose; Online]
           eq_refl).
Defined.

Lemma online_reopens_active_witness :
  opens (trace (step 4 parse stringify Online (run 4 parse stringify [SocketClosed 0%nat] connecting))) =
    (opens (trace (run 4 parse stringify [SocketClosed 0%nat] connecting)) +
     if active (this (run 4 parse stringify [SocketClosed 0%nat] connecting))
        && negb (connected (this (run 4 parse stringify [SocketClosed 0%nat] connecting)))
     then 1 else 0)%nat.
Proof.
  exact (proj2 (online_reopens_active 4 parse stringify "wss://example.com/api"
                  example_options 7 ∅ 1000 [SocketClosed 0%nat] eq_refl)).
Defined.

Lemma connected_call_goes_out_witness :
  exists w',
    scaffold stringify "chat" (Some "2") "list" None calling = (Ok (2, Some 3%nat), w') /\
    sent (trace w') =
      sent (trace calling) ++
      [Text (stringify (call_packet 2 (call_target "chat" (Some "2") "list") None))].
Proof.
  assert (Hc : connected (this calling) = true) by (vm_compute; reflexivity).
  assert (Hk : kind (this calling) = Http \/ is_Some (socket (this calling)))
    by (right; vm_compute; eexists; reflexivity).
  assert (Hid : callId (this calling) + 1 = 2) by (vm_compute; reflexivity).
  assert (Hf : fresh calling = 3%nat) by (vm_compute; reflexivity).
  destruct (connected_call_goes_out 4 parse stringify calling "chat" (Some "2") "list" None
              calling_reachable Hc Hk) as (w' & H1 & _ & _ & _ & H2 & _).
  rewrite Hid, Hf in H1. rewrite Hid in H2.
  exists w'. split; [exact H1 | exact H2].
Defined.

Lemma queued_reachable : reachable 4 parse stringify queued.
Proof.
  exists "wss://example.com/api", example_options, 7%nat, ∅, 1000,
    [UserCall "chat" None "send" None; UserCall "chat" (Some "2") "list" (Some (JArr []))].
  reflexivity.
Qed.

Lemma suspended_call_waits_witness :
  calls (this queued) !! num 1 = None /\
  In (1%nat, {| pc_callId := 1; pc_target := "chat/send"; pc_args := JObj [];
                pc_stage := AwaitOpening |})
     (parked (step 4 parse stringify (SocketClosed 0%nat) queued)).
Proof.
  assert (Hin : In (1%nat, {| pc_callId := 1; pc_target := "chat/send"; pc_args := JObj [];
                              pc_stage := AwaitOpening |}) (parked queued))
    by (vm_compute; left; reflexivity).
  destruct (suspended_call_waits 4 parse stringify queued _ _ queued_reachable Hin)
    as (H1 & _ & H2).
  split; [exact H1|]. apply H2. intros sock Hs. discriminate Hs.
Defined.

Lemma queued_calls_go_out_in_order_witness :
  sent (trace (step 4 parse stringify (SocketOpened 0%nat) queued)) =
    sent (trace connecting) ++
    [Text (stringify (call_packet 1 "chat/send" None));
     Text (stringify (call_packet 2 "chat.2/list" (Some (JArr []))))].
Proof.
  assert (H1 : kind (this connecting) = Ws) by (vm_compute; reflexivity).
  assert (H2 : opening (this connecting) = Some 1%nat) by (vm_compute; reflexivity).
  assert (H3 : listeners connecting !! 0%nat = Some 1%nat) by (vm_compute; reflexivity).
  assert (H4 : socket (this connecting) = Some 0%nat) by (vm_compute; reflexivity).
  assert (H5 : parked connecting = []) by (vm_compute; reflexivity).
  assert (H6 : callId (this connecting) = 0) by (vm_compute; reflexivity).
  pose proof (proj1 (proj2 (proj2
    (queued_calls_go_out_in_order 4 parse stringify connecting 1%nat 0%nat
       [("chat", None, "send", None); ("chat", Some "2", "list", Some (JArr []))]
       H1 H2 H3 H4 H5)))) as H.
  rewrite H6 in H. exact H.
Defined.


Lemma call_after_close_is_rejected_witness :
  Metacom_send (Text "ping") closing = (Throw TypeError, touched closing) /\
  trace (step 4 parse stringify (UserCall "chat" None "send" None) closing) =
    trace closing ++ [SetTimeout (CallTimeout 1 2%nat) 50; Reject 2%nat TypeError].
Proof.
  assert (H1 : kind (this established) = Ws) by (vm_compute; reflexivity).
  assert (H2 : connected (this established) = true) by (vm_compute; reflexivity).
  assert (H3 : opening (this established) = None) by (vm_compute; reflexivity).
  assert (H4 : callId (this established) + 1 = 1) by (vm_compute; reflexivity).
  assert (H5 : fresh established = 2%nat) by (vm_compute; reflexivity).
  assert (H6 : callTimeout (this established) = 50) by (vm_compute; reflexivity).
  destruct (call_after_close_is_rejected 4 parse stringify established
              "chat" None "send" None (Text "ping") H1 H2 H3) as (Hs & Ht & _).
  rewrite H4, H5, H6 in Ht. split; [exact Hs | exact Ht].
Defined.

Lemma ping_when_idle_witness :
  sent (trace (step 4 parse stringify PingTimer idle)) = sent (trace idle) ++ [Text "{}"] /\
  step 4 parse stringify PingTimer (step 4 parse stringify PingTimer idle) =
    step 4 parse stringify PingTimer idle.
Proof.
  assert (H1 : heartbeat_due idle = true) by (vm_compute; reflexivity).
  assert (H2 : 0 <= pingInterval (this idle)) by (vm_compute; discriminate).
  destruct (ping_when_idle 4 parse stringify idle) as [Hs Hi].
  rewrite H1 in Hs. split; [exact Hs | exact (Hi H2)].
Defined.

Lemma one_socket_per_reconnect_witness :
  sockets_created
    (trace (run 4 parse stringify [SocketClosed 0%nat; Online; ReconnectTimer] established)) =
  S (sockets_created (trace established)).
Proof.
  assert (H1 : kind (this established) = Ws) by (vm_compute; reflexivity).
  assert (H2 : active (this established) = true) by (vm_compute; reflexivity).
  assert (H3 : self established ∈ connections established)
    by (refine (bool_decide_unpack _ _); vm_compute; exact I).
  assert (H4 : 0%nat ∈ dom (listeners established))
    by (refine (bool_decide_unpack _ _); vm_compute; exact I).
  exact (proj1 (proj2 (one_socket_per_reconnect 4 parse stringify established 0%nat
                         H1 H2 H3 H4))).
Defined.


Lemma stream_while_disconnected_witness :
  createStream stringify "f" 3 connecting =
    (Ok {| w_id := 1; w_name := "f"; w_size := 3; w_finalized := false |},
     set_this (set_streamId 1 (this connecting)) connecting).
Proof.
  assert (H1 : kind (this connecting) = Ws) by (vm_compute; reflexivity).
  assert (H2 : connected (this connecting) = false) by (vm_compute; reflexivity).
  assert (H3 : streamId (this connecting) + 1 = 1) by (vm_compute; reflexivity).
  pose proof (proj1 (stream_while_disconnected 4 stringify connecting "f" 3 H1 H2)) as H.
  rewrite H3 in H. exact H.
Defined.

Lemma upload_sends_blob_in_order_witness :
  exists consumer w1 w2,
    createBlobUploader stringify example_blob established = (Ok consumer, w1) /\
    upload 4 parse stringify consumer example_blob w1 = (Ok (Writable.finalize consumer), w2) /\
    sent (trace w2) =
      sent (trace established)
      ++ [Text (stringify (init_packet 1 "blob" 3))]
      ++ upload_frames 4 stringify 1 [[Byte.x01; Byte.x02]; [Byte.x03]].
Proof.
  assert (Hk : kind (this established) = Http \/
               connected (this established) = true /\ is_Some (socket (this established)))
    by (right; split; [vm_compute; reflexivity | vm_compute; eexists; reflexivity]).
  assert (Hid : streamId (this established) + 1 = 1) by (vm_compute; reflexivity).
  destruct (upload_sends_blob_in_order 4 parse stringify established example_blob
              [[Byte.x01; Byte.x02]; [Byte.x03]] Hk eq_refl eq_refl)
    as (consumer & w1 & w2 & H1 & _ & H2 & H3).
  rewrite Hid in H3.
  exists consumer, w1, w2. split; [exact H1|]. split; [exact H2 | exact H3].
Defined.

Lemma frame_reaches_its_stream_witness :
  binary 4 (Chunk.encode 4 1 [Byte.x01]) receiving =
    (Ok tt,
     set_heap (<[2%nat := {| r_id := num 1; r_name := "f"; r_size := 3;
                             r_state := ACTIVE; r_buffer := [[Byte.x01]] |}]>
                 (heap receiving)) receiving).
Proof.
  assert (H1 : Chunk.valid_id 4 1) by (unfold Chunk.valid_id; simpl; lia).
  assert (H2 : streams (this receiving) !! num 1 = Some 2%nat) by (vm_compute; reflexivity).
  assert (H3 : heap receiving !! 2%nat =
               Some {| r_id := num 1; r_name := "f"; r_size := 3; r_state := ACTIVE;
                       r_buffer := [] |})
    by (vm_compute; reflexivity).
  exact (frame_reaches_its_stream 4 receiving 1 [Byte.x01] 2%nat _ H1 H2 H3).
Defined.

Lemma opening_call_goes_last_witness :
  sent (trace (run 4 parse stringify
                 [UserCall "chat" None "send" None;
                  UserCall "chat" (Some "2") "list" (Some (JArr []));
                  UserCall "auth" None "signIn" None] dropped)) =
    sent (trace dropped) /\
  sent (trace (step 4 parse stringify (SocketOpened 2%nat)
                 (run 4 parse stringify
                    [UserCall "chat" None "send" None;
                     UserCall "chat" (Some "2") "list" (Some (JArr []));
                     UserCall "auth" None "signIn" None] dropped))) =
    sent (trace dropped) ++
    [Text (stringify (call_packet 2 "chat.2/list" (Some (JArr []))));
     Text (stringify (call_packet 3 "auth/signIn" None));
     Text (stringify (call_packet 1 "chat/send" None))].
Proof.
  assert (H1 : kind (this dropped) = Ws) by (vm_compute; reflexivity).
  assert (H2 : opening (this dropped) = None) by (vm_compute; reflexivity).
  assert (H3 : connected (this dropped) = false) by (vm_compute; reflexivity).
  assert (H4 : parked dropped = []) by (vm_compute; reflexivity).
  assert (H5 : callId (this dropped) = 0) by (vm_compute; reflexivity).
  assert (H6 : fresh dropped = 2%nat) by (vm_compute; reflexivity).
  pose proof (opening_call_goes_last 4 parse stringify dropped "chat" None "send" None
                [("chat", Some "2", "list", Some (JArr [])); ("auth", None, "signIn", None)]
                H1 H2 H3 H4) as H.
  cbv zeta in H. rewrite H5, H6 in H. exact H.
Defined.
